(** * ConnectN alpha-beta agent: a shallow embedding of [alpha_beta_agent.py]

    The agent of [ConnectN/alpha_beta_agent.py] is embedded function by
    function: [heuristics], [maxValue], [minValue], [terminalCondition],
    [get_successors] and [makeMove].  The board class ([board.Board]) the
    agent imports is a collaborator; it is taken as an interface
    ([Board.Ops]) and, for concrete runs, instantiated by a grid board
    ([Grid]). *)

From Stdlib Require Import ZArith QArith Lia List Bool.
From stdpp Require Import base option list gmap.
Import ListNotations.

Local Open Scope Z_scope.

(** ** The board collaborator *)

Module Board.

(** What the agent uses of a board object [brd]: the attributes [brd.w],
    [brd.h], [brd.player] and [brd.board[j][i]], and the methods
    [get_outcome], [is_any_line_at], [free_cols] and [add_token].
    [board brd j i] is the cell [brd.board[j][i]] for [0 <= i < w] and
    [0 <= j < h].  [add_token brd col] is the value the object holds
    after [brd.add_token(col)]. *)
Class Ops (B : Type) := {
  w : B -> Z;
  h : B -> Z;
  player : B -> Z;
  board : B -> Z -> Z -> Z;
  get_outcome : B -> Z;
  is_any_line_at : B -> Z -> Z -> bool;
  free_cols : B -> list Z;
  add_token : B -> Z -> B
}.

End Board.

(** Python's [range(lo, hi)]. *)
Definition range (lo hi : Z) : list Z :=
  map (fun k => lo + Z.of_nat k) (seq 0 (Z.to_nat (hi - lo))).

(** Exchange of the two player markers, 1 and 2. *)
Definition swap (m : Z) : Z :=
  if m =? 1 then 2 else if m =? 2 then 1 else m.

(** ** Control flow of a [for] loop with [break] *)

Inductive ctl (St : Type) : Type :=
| Continue (s : St)
| Break (s : St).
Arguments Continue {St} s.
Arguments Break {St} s.

(** [for_break body xs s] runs [for x in xs: body] from the loop state [s].
    It returns the final state together with the items the body ran on, in
    order.  The body answers [None] when it does not return. *)
Fixpoint for_break {A St : Type} (body : St -> A -> option (ctl St))
    (xs : list A) (s : St) : option (St * list A) :=
  match xs with
  | [] => Some (s, [])
  | x :: xs' =>
      match body s x with
      | None => None
      | Some (Break s') => Some (s', [x])
      | Some (Continue s') =>
          match for_break body xs' s' with
          | Some (s'', seen) => Some (s'', x :: seen)
          | None => None
          end
      end
  end.

(** ** The agent *)

Section Agent.

Context {B : Type} `{!Board.Ops B}.

(** A successor: the new board and the column of the last token. *)
Definition successor : Type := B * Z.

(** The update of [severity] for the cell of column [i] and row [j]. *)
Definition severity_step (brd : B) (me opponent : Z) (severity i j : Z) : Z :=
  if negb (Board.board brd j i =? 0) then
    if Board.is_any_line_at brd i j then
      if Board.board brd j i =? opponent then severity - 5
      else if Board.board brd j i =? me then severity + 1
      else severity + 0
    else severity
  else severity.

(** The two nested loops of [heuristics]. *)
Definition scan (brd : B) (me opponent : Z) : Z :=
  fold_left
    (fun severity i =>
       fold_left (fun severity j => severity_step brd me opponent severity i j)
                 (range 0 (Board.h brd)) severity)
    (range 0 (Board.w brd)) 0.

Definition heuristics (brd : B) (player : Z) : Z :=
  let '(me, opponent) := if player =? 1 then (1, 2) else (2, 1) in
  if (Board.get_outcome brd =? me) && (Board.player brd =? opponent) then 99999999
  else if (Board.get_outcome brd =? opponent) && (Board.player brd =? me) then -99999999
  else scan brd me opponent.

(** [terminalCondition] returns [-1] at depth 0 and falls off its end,
    returning Python's [None], otherwise. *)
Definition terminalCondition (n : Z) : option Z :=
  if n =? 0 then Some (-1) else None.

Definition is_minus_one (r : option Z) : bool :=
  match r with
  | Some v => v =? -1
  | None => false
  end.

(** [get_successors] on board values: [nb] is a copy of [brd] that received
    a token, so it holds [Board.add_token brd col]. *)
Definition get_successors (brd : B) : list successor :=
  let freecols := Board.free_cols brd in
  match freecols with
  | [] => []
  | _ =>
      fold_left (fun succ col => succ ++ [(Board.add_token brd col, col)])
                freecols []
  end.

(** The loop state of [maxValue] is [(bestBoard, bestMove, alpha)], the one
    of [minValue] is [(worstBoard, worstMove, alpha)]. *)
Definition loop_state : Type := option successor * Z * Z.

(** The result of a search call: [(board, value)]. *)
Definition search_result : Type := option successor * Z.

(** The body of the loop of [maxValue]; [child brd alpha] is the call
    [self.minValue(brd, n - 1, alpha, beta, player)]. *)
Definition max_body (child : B -> Z -> option search_result) (beta : Z)
    (st : loop_state) (i : successor) : option (ctl loop_state) :=
  let '(bestBoard, bestMove, alpha) := st in
  match child (fst i) alpha with
  | None => None
  | Some (_, move) =>
      let '(bestMove, bestBoard) :=
        if move >? bestMove then (move, Some i) else (bestMove, bestBoard) in
      if bestMove >=? beta then Some (Break (bestBoard, bestMove, alpha))
      else if bestMove >=? alpha then Some (Continue (bestBoard, bestMove, bestMove))
      else Some (Continue (bestBoard, bestMove, alpha))
  end.

(** The body of the loop of [minValue]; [child brd alpha] is the call
    [self.maxValue(brd, n - 1, alpha, beta, player)]. *)
Definition min_body (child : B -> Z -> option search_result) (beta : Z)
    (st : loop_state) (i : successor) : option (ctl loop_state) :=
  let '(worstBoard, worstMove, alpha) := st in
  match child (fst i) alpha with
  | None => None
  | Some (_, move) =>
      let '(worstMove, worstBoard) :=
        if move <? worstMove then (move, Some i) else (worstMove, worstBoard) in
      if worstMove <=? beta then Some (Break (worstBoard, worstMove, alpha))
      else if worstMove <=? alpha then Some (Continue (worstBoard, worstMove, worstMove))
      else Some (Continue (worstBoard, worstMove, alpha))
  end.

(** The loop of [maxValue] and of [minValue] over the successors of [brd],
    given the recursive call. *)
Definition max_loop (child : B -> Z -> option search_result) (brd : B)
    (alpha beta : Z) : option (loop_state * list successor) :=
  for_break (max_body child beta) (get_successors brd) (None, -999999999, alpha).

Definition min_loop (child : B -> Z -> option search_result) (brd : B)
    (alpha beta : Z) : option (loop_state * list successor) :=
  for_break (min_body child beta) (get_successors brd) (None, 999999999, alpha).

Definition loop_result (r : option (loop_state * list successor))
    : option search_result :=
  match r with
  | Some ((brd, move, _), _) => Some (brd, move)
  | None => None
  end.

(** [maxValue] and [minValue].  The recursion is on [fuel]: the depth [n]
    is a Python integer, and only a call with [n >= 0] is sure to reach
    [n == 0]. *)
Fixpoint maxValue_fuel (fuel : nat) (brd : B) (n alpha beta player : Z)
    {struct fuel} : option search_result :=
  match fuel with
  | O => None
  | S fuel' =>
      if is_minus_one (terminalCondition n) then Some (None, heuristics brd player)
      else
        loop_result
          (max_loop (fun b a => minValue_fuel fuel' b (n - 1) a beta player)
                    brd alpha beta)
  end
with minValue_fuel (fuel : nat) (brd : B) (n alpha beta player : Z)
    {struct fuel} : option search_result :=
  match fuel with
  | O => None
  | S fuel' =>
      if is_minus_one (terminalCondition n) then Some (None, heuristics brd player)
      else
        loop_result
          (min_loop (fun b a => maxValue_fuel fuel' b (n - 1) a beta player)
                    brd alpha beta)
  end.

(** A call at depth [n >= 0] needs [n + 1] nested calls at most. *)
Definition maxValue (brd : B) (n alpha beta player : Z) : option search_result :=
  maxValue_fuel (S (Z.to_nat n)) brd n alpha beta player.

Definition minValue (brd : B) (n alpha beta player : Z) : option search_result :=
  minValue_fuel (S (Z.to_nat n)) brd n alpha beta player.

(** The successors the loop of a call ran its body on ([[]] when the call
    returns at the terminal condition, before the loop). *)
Definition maxValue_examined (brd : B) (n alpha beta player : Z)
    : option (list successor) :=
  if is_minus_one (terminalCondition n) then Some []
  else
    snd <$> max_loop (fun b a => minValue_fuel (Z.to_nat n) b (n - 1) a beta player)
                     brd alpha beta.

Definition minValue_examined (brd : B) (n alpha beta player : Z)
    : option (list successor) :=
  if is_minus_one (terminalCondition n) then Some []
  else
    snd <$> min_loop (fun b a => maxValue_fuel (Z.to_nat n) b (n - 1) a beta player)
                     brd alpha beta.

(** *** [makeMove] *)

(** The values [bestMove] and [board] hold in [makeMove]: the integer
    [bestMove] starts as, [None], or a successor tuple. *)
Inductive pyval : Type :=
| PyInt (z : Z)
| PyNone
| PyTuple (s : successor).

Definition of_board (o : option successor) : pyval :=
  match o with
  | Some s => PyTuple s
  | None => PyNone
  end.

(** What [makeMove] answers: a column, or the [TypeError] Python raises
    when [[1]] is applied to [None] or to an integer. *)
Inductive answer : Type :=
| Column (c : Z)
| TypeError.

Definition item1 (v : pyval) : answer :=
  match v with
  | PyTuple s => Column (snd s)
  | PyInt _ | PyNone => TypeError
  end.

(** The kind of node a search call opens. *)
Inductive node : Type := MAX | MIN.

(** A top-level search call as [makeMove] issues it. *)
Record call : Type := Call {
  call_node : node;
  call_depth : Z;
  call_alpha : Z;
  call_beta : Z;
  call_player : Z
}.

(** [curTime > 12]. *)
Definition over_budget (curTime : Q) : bool := negb (Qle_bool curTime (12 # 1)).

(** The loop of [makeMove] over the remaining depths.  [time k] is the
    reading of the [k]-th call of [time.time()]; [clock] is the reading
    taken before the loop.  The result is the answer and the search calls
    issued, in order; [None] stands for a search call that does not
    return. *)
Fixpoint makeMove_loop (time : nat -> Q) (clock : Q) (brd : B) (depths : list Z)
    (k : nat) (bestSeverity : Z) (bestMove : pyval) : option (answer * list call) :=
  match depths with
  | [] => Some (item1 bestMove, [])
  | i :: depths' =>
      let c := Call MIN i (-99999999) 99999999 (Board.player brd) in
      match minValue brd i (-99999999) 99999999 (Board.player brd) with
      | None => None
      | Some (board, state) =>
          if state >=? 9999999 then Some (item1 (of_board board), [c])
          else if state <=? -9999999 then Some (item1 (of_board board), [c])
          else
            let '(bestSeverity, bestMove) :=
              if state >? bestSeverity then (state, of_board board)
              else (bestSeverity, of_board board) in
            let curTime := (time k - clock)%Q in
            if over_budget curTime then Some (item1 bestMove, [c])
            else
              match makeMove_loop time clock brd depths' (S k) bestSeverity bestMove with
              | Some (a, cs) => Some (a, c :: cs)
              | None => None
              end
      end
  end.

Definition makeMove_run (max_depth : Z) (time : nat -> Q) (brd : B)
    : option (answer * list call) :=
  makeMove_loop time (time O) brd (range 0 max_depth) 1%nat 0 (PyInt 0).

Definition makeMove (max_depth : Z) (time : nat -> Q) (brd : B) : option answer :=
  fst <$> makeMove_run max_depth time brd.

Definition makeMove_calls (max_depth : Z) (time : nat -> Q) (brd : B)
    : option (list call) :=
  snd <$> makeMove_run max_depth time brd.

(** [go] *)
Definition go (max_depth : Z) (time : nat -> Q) (brd : B) : option answer :=
  makeMove max_depth time brd.

(** *** [get_successors] on board objects

    Board objects live in a store; a variable holds a reference.
    [brd.copy()] allocates a new object with the contents of [brd], and
    [nb.add_token(col)] updates the object [nb] refers to in place. *)

Definition ref : Type := positive.

(** Modelled from the spec: [copy] is a method of the board class, which the
    agent only imports; clone() returns an independent BoardState, a deep
    copy with no storage shared with the source. *)
Definition copy (σ : gmap ref B) (brd : ref) : option (ref * gmap ref B) :=
  v ← σ !! brd;
  let nb := fresh (dom σ) in
  Some (nb, <[nb := v]> σ).

(** Modelled from the spec: [add_token] is a method of the board class;
    dropToken mutates the receiver in place.  The new contents are
    [Board.add_token] of the old ones. *)
Definition add_token_at (σ : gmap ref B) (nb : ref) (col : Z) : option (gmap ref B) :=
  v ← σ !! nb;
  Some (<[nb := Board.add_token v col]> σ).

(** [brd.free_cols()] reads the object and builds a new list. *)
Definition free_cols_at (σ : gmap ref B) (brd : ref) : option (list Z) :=
  Board.free_cols <$> σ !! brd.

(** The loop [for col in freecols] of [get_successors], with the list
    [succ] and the store as its state. *)
Fixpoint successors_loop (brd : ref) (freecols : list Z)
    (succ : list (ref * Z)) (σ : gmap ref B) : option (list (ref * Z) * gmap ref B) :=
  match freecols with
  | [] => Some (succ, σ)
  | col :: freecols' =>
      '(nb, σ1) ← copy σ brd;
      σ2 ← add_token_at σ1 nb col;
      successors_loop brd freecols' (succ ++ [(nb, col)]) σ2
  end.

Definition get_successors_at (σ : gmap ref B) (brd : ref)
    : option (list (ref * Z) * gmap ref B) :=
  freecols ← free_cols_at σ brd;
  match freecols with
  | [] => Some ([], σ)
  | _ => successors_loop brd freecols [] σ
  end.

(** What [get_successors] leaves behind: the list [succ] and the store
    [σ'] it returns from the store [σ], for a board holding [v]. *)
Record successors_ok (σ σ' : gmap ref B) (v : B) (succ : list (ref * Z)) : Prop := {
  ok_columns : map snd succ = Board.free_cols v;
  ok_distinct : NoDup (map fst succ);
  ok_kept : forall l, l ∈ dom σ -> σ' !! l = σ !! l;
  ok_clones :
    Forall (fun s => (fst s ∉ dom σ) /\ σ' !! fst s = Some (Board.add_token v (snd s))) succ
}.

(** *** The evaluator, as the specification words it *)

(** The cells of the grid, column by column. *)
Definition all_cells (brd : B) : list (Z * Z) :=
  flat_map (fun i => map (fun j => (i, j)) (range 0 (Board.h brd)))
           (range 0 (Board.w brd)).

(** The cell [c] holds marker [m] and lies on a still-completable line. *)
Definition on_line (brd : B) (m : Z) (c : Z * Z) : bool :=
  (Board.board brd (snd c) (fst c) =? m) && Board.is_any_line_at brd (fst c) (snd c).

Definition cells_on_line (brd : B) (m : Z) : list (Z * Z) :=
  List.filter (on_line brd m) (all_cells brd).

(** +1 for each such cell of [rootPlayer], -5 for each one of the
    opponent. *)
Definition positional_score (brd : B) (rootPlayer : Z) : Z :=
  Z.of_nat (length (cells_on_line brd rootPlayer))
  - 5 * Z.of_nat (length (cells_on_line brd (swap rootPlayer))).

(** [mirrored b b'] checks that [b'] is the colour-swapped mirror of [b]:
    same size, the marker of every cell, the turn owner and the outcome
    exchanged, and the same cells on completable lines. *)
Definition mirrored (b b' : B) : bool :=
  (Board.w b' =? Board.w b) && (Board.h b' =? Board.h b)
  && (Board.player b' =? swap (Board.player b))
  && (Board.get_outcome b' =? swap (Board.get_outcome b))
  && forallb (fun c =>
                (Board.board b' (snd c) (fst c) =? swap (Board.board b (snd c) (fst c)))
                && eqb (Board.is_any_line_at b' (fst c) (snd c))
                       (Board.is_any_line_at b (fst c) (snd c)))
             (all_cells b).

(** [minValue] returns after examining only its first successor. *)
Definition examines_only_first (brd : B) (n alpha beta player : Z) : Prop :=
  exists s rest,
    get_successors brd = s :: rest
    /\ minValue_examined brd n alpha beta player = Some [s].

(** *** Plain minimax, as the specification words it

    A node with no depth left or no successor is scored by the evaluator;
    otherwise a MAX node takes the largest and a MIN node the smallest
    score of its successors, searched one ply shallower. *)

Definition maximum (x : Z) (xs : list Z) : Z := fold_left Z.max xs x.
Definition minimum (x : Z) (xs : list Z) : Z := fold_left Z.min xs x.

Fixpoint minimax_max (depth : nat) (brd : B) (rootPlayer : Z) : Z :=
  match depth with
  | O => heuristics brd rootPlayer
  | S depth' =>
      match map (fun s => minimax_min depth' (fst s) rootPlayer) (get_successors brd) with
      | [] => heuristics brd rootPlayer
      | v :: vs => maximum v vs
      end
  end
with minimax_min (depth : nat) (brd : B) (rootPlayer : Z) : Z :=
  match depth with
  | O => heuristics brd rootPlayer
  | S depth' =>
      match map (fun s => minimax_max depth' (fst s) rootPlayer) (get_successors brd) with
      | [] => heuristics brd rootPlayer
      | v :: vs => minimum v vs
      end
  end.

End Agent.

(** ** A grid board *)

Module Grid.

(** Modelled from the spec: the board/rules engine ([board.Board], imported
    by the agent) is specified only at its interface.  A BoardState is
    a grid of cell markers (0 empty, 1 and 2 the players), a width and
    a height, the target connection length and the marker of the player to
    move next.  [grid] lists the rows from the bottom one up. *)
Record t : Type := Make {
  grid : list (list Z);
  width : Z;
  height : Z;
  connect : Z;
  to_move : Z
}.

(** Modelled from the spec: the cells of the grid are those of columns
    [0 .. width - 1] and rows [0 .. height - 1]. *)
Definition in_bounds (b : t) (x y : Z) : bool :=
  (0 <=? x) && (x <? width b) && (0 <=? y) && (y <? height b).

(** Modelled from the spec: the cell marker of column [x] and row [y]
    (empty outside the grid, where the agent never looks). *)
Definition cell (b : t) (x y : Z) : Z :=
  if in_bounds b x y then
    nth (Z.to_nat x) (nth (Z.to_nat y) (grid b) []) 0
  else 0.

(** Modelled from the spec: freeColumns, the non-full columns in ascending
    column order.  A column is full when its top cell is taken. *)
Definition free_cols (b : t) : list Z :=
  List.filter (fun x => cell b x (height b - 1) =? 0) (range 0 (width b)).

(** Modelled from the spec: dropToken on the rows, marker [p] goes to the
    lowest open cell of column [x]. *)
Fixpoint drop_token (rows : list (list Z)) (x : nat) (p : Z) : list (list Z) :=
  match rows with
  | [] => []
  | r :: rows' =>
      if nth x r 0 =? 0 then <[x := p]> r :: rows'
      else r :: drop_token rows' x p
  end.

(** Modelled from the spec: dropToken places a token of the player to move
    in the lowest open cell of the column, then advances the player to
    move to the opponent.  (On a full column, where the spec leaves it
    undefined, the grid is kept.) *)
Definition add_token (b : t) (x : Z) : t :=
  {| grid := drop_token (grid b) (Z.to_nat x) (to_move b);
     width := width b;
     height := height b;
     connect := connect b;
     to_move := if to_move b =? 1 then 2 else 1 |}.

(** Modelled from the spec: the directions a line of the target connection
    length can take, horizontal, vertical and the two diagonals. *)
Definition directions : list (Z * Z) := [(1, 0); (0, 1); (1, 1); (1, -1)].

(** Modelled from the spec: a candidate line, the [connect b] cells from
    [(x, y)] on in direction [(dx, dy)], when they all lie on the grid. *)
Definition window (b : t) (x y dx dy : Z) : option (list Z) :=
  if in_bounds b x y
     && in_bounds b (x + (connect b - 1) * dx) (y + (connect b - 1) * dy)
  then Some (map (fun k => cell b (x + k * dx) (y + k * dy)) (range 0 (connect b)))
  else None.

(** Modelled from the spec: a line of [connect b] markers [m] starts at
    [(x, y)]. *)
Definition won_at (b : t) (m x y : Z) : bool :=
  existsb (fun d =>
             match window b x y (fst d) (snd d) with
             | Some cells => forallb (Z.eqb m) cells
             | None => false
             end) directions.

(** Modelled from the spec: the cells of the grid, column by column. *)
Definition cells (b : t) : list (Z * Z) :=
  flat_map (fun x => map (fun y => (x, y)) (range 0 (height b))) (range 0 (width b)).

(** Modelled from the spec: marker [m] holds a complete line, so that the
    outcome is a win of [m]. *)
Definition wins (b : t) (m : Z) : bool :=
  existsb (fun c => won_at b m (fst c) (snd c)) (cells b).

(** Modelled from the spec: outcome, one of marker 1 wins (1), marker 2
    wins (2), draw (3, a full board nobody won) and undecided (0). *)
Definition get_outcome (b : t) : Z :=
  if wins b 1 then 1
  else if wins b 2 then 2
  else match free_cols b with
       | [] => 3
       | _ => 0
       end.

(** Modelled from the spec: completableLineAt, whether the cell at
    [(x, y)] participates in a still-completable line of the target
    connection length: some window of that length through the cell holds
    only empty cells and cells of the marker at [(x, y)]. *)
Definition is_any_line_at (b : t) (x y : Z) : bool :=
  let m := cell b x y in
  existsb (fun d =>
             existsb (fun k =>
                        match window b (x - k * fst d) (y - k * snd d) (fst d) (snd d) with
                        | Some cells => forallb (fun c => (c =? 0) || (c =? m)) cells
                        | None => false
                        end) (range 0 (connect b))) directions.

#[export] Instance ops : Board.Ops t := {|
  Board.w := width;
  Board.h := height;
  Board.player := to_move;
  Board.board := fun b j i => cell b i j;
  Board.get_outcome := get_outcome;
  Board.is_any_line_at := is_any_line_at;
  Board.free_cols := free_cols;
  Board.add_token := add_token
|}.

(** Modelled from the spec: the colour-swapped mirror of a board, the
    player markers exchanged in every cell and in the turn owner. *)
Definition mirror (b : t) : t :=
  {| grid := map (map swap) (grid b);
     width := width b;
     height := height b;
     connect := connect b;
     to_move := swap (to_move b) |}.

(** *** Boards used in the examples: three columns, three rows, three in
    a line. *)

(** Player 1 to move; a token in column 0 completes a vertical line. *)
Definition win_left : t :=
  Make [[1; 2; 2]; [1; 0; 0]; [0; 0; 0]] 3 3 3 1.

(** Player 1 to move; a token in column 1 completes a vertical line, one
    in column 0 does not. *)
Definition win_middle : t :=
  Make [[2; 1; 2]; [0; 1; 0]; [0; 0; 0]] 3 3 3 1.

(** The empty board. *)
Definition empty : t :=
  Make [[0; 0; 0]; [0; 0; 0]; [0; 0; 0]] 3 3 3 1.

(** Two columns of one row: two free cells are all that is left. *)
Definition two_left : t :=
  Make [[0; 0]] 2 1 2 1.

(** A clock that never advances. *)
Definition frozen : nat -> Q := fun _ => (0 # 1)%Q.

(** A clock that reads 13 seconds more at every call. *)
Definition slow : nat -> Q := fun k => (Z.of_nat k * 13 # 1)%Q.

(** A store with one board object, the empty board. *)
Definition one_board : gmap positive t := {[ 1%positive := empty ]}.

End Grid.

(** ** Properties of the evaluator *)

Section Evaluator.

Context {B : Type} `{!Board.Ops B}.

(** The nested loops of [heuristics] visit the cells of [all_cells] in
    order. *)
Lemma nested_fold_flat {A I J : Type} (f : A -> I -> J -> A) (ys : list J)
    (xs : list I) (a : A) :
  fold_left (fun a i => fold_left (fun a j => f a i j) ys a) xs a
  = fold_left (fun a c => f a (fst c) (snd c))
              (flat_map (fun i => map (fun j => (i, j)) ys) xs) a.
Proof.
  revert a. induction xs as [|x xs IH]; intros a; simpl; [reflexivity|].
  rewrite fold_left_app, IH. f_equal.
  generalize a. clear. induction ys as [|y ys IH]; intros a; simpl; auto.
Qed.

Lemma scan_all_cells (brd : B) (me opponent : Z) :
  scan brd me opponent
  = fold_left (fun severity c => severity_step brd me opponent severity (fst c) (snd c))
              (all_cells brd) 0.
Proof. unfold scan, all_cells. apply nested_fold_flat. Qed.

(** Cell by cell, [severity] gains 1 for a cell of [me] and loses 5 for
    a cell of [opponent], when the cell is on a line. *)
Lemma fold_severity (brd : B) (me opponent : Z) (cs : list (Z * Z)) (severity : Z) :
  me <> 0 -> opponent <> 0 -> me <> opponent ->
  fold_left (fun severity c => severity_step brd me opponent severity (fst c) (snd c))
            cs severity
  = severity + Z.of_nat (length (List.filter (on_line brd me) cs))
    - 5 * Z.of_nat (length (List.filter (on_line brd opponent) cs)).
Proof.
  intros Hme Hop Hne. revert severity.
  induction cs as [|c cs IH]; intros severity; simpl; [lia|].
  rewrite IH. unfold severity_step, on_line.
  destruct (Board.is_any_line_at brd (fst c) (snd c)); rewrite ?andb_true_r, ?andb_false_r.
  - destruct (Z.eqb_spec (Board.board brd (snd c) (fst c)) 0) as [E0|E0];
      destruct (Z.eqb_spec (Board.board brd (snd c) (fst c)) opponent) as [Eo|Eo];
      destruct (Z.eqb_spec (Board.board brd (snd c) (fst c)) me) as [Em|Em];
      simpl; try lia.
  - destruct (Board.board brd (snd c) (fst c) =? 0); simpl; lia.
Qed.

Lemma scan_positional (brd : B) (me opponent : Z) :
  me <> 0 -> opponent <> 0 -> me <> opponent ->
  scan brd me opponent
  = Z.of_nat (length (cells_on_line brd me))
    - 5 * Z.of_nat (length (cells_on_line brd opponent)).
Proof.
  intros. rewrite scan_all_cells, fold_severity by assumption.
  unfold cells_on_line. lia.
Qed.

(** When neither sentinel test fires, [heuristics] is the positional
    score. *)
Lemma heuristics_positional (brd : B) (rootPlayer : Z) :
  rootPlayer = 1 \/ rootPlayer = 2 ->
  ~ (Board.get_outcome brd = rootPlayer /\ Board.player brd = swap rootPlayer) ->
  ~ (Board.get_outcome brd = swap rootPlayer /\ Board.player brd = rootPlayer) ->
  heuristics brd rootPlayer = positional_score brd rootPlayer.
Proof.
  intros Hp Hw Hl. unfold heuristics, positional_score.
  destruct Hp as [-> | ->].
  - change (swap 1) with 2 in *. change (1 =? 1) with true. cbv iota beta.
    destruct (Z.eqb_spec (Board.get_outcome brd) 1), (Z.eqb_spec (Board.player brd) 2);
      cbn [andb]; try tauto;
      destruct (Z.eqb_spec (Board.get_outcome brd) 2), (Z.eqb_spec (Board.player brd) 1);
      cbn [andb]; try tauto; apply scan_positional; lia.
  - change (swap 2) with 1 in *. change (2 =? 1) with false. cbv iota beta.
    destruct (Z.eqb_spec (Board.get_outcome brd) 2), (Z.eqb_spec (Board.player brd) 1);
      cbn [andb]; try tauto;
      destruct (Z.eqb_spec (Board.get_outcome brd) 1), (Z.eqb_spec (Board.player brd) 2);
      cbn [andb]; try tauto; apply scan_positional; lia.
Qed.

(** C6: when the outcome of the board favours [rootPlayer] and the opponent
    is to move, [heuristics] returns the WIN sentinel 99999999; when the
    outcome favours the opponent and [rootPlayer] is to move, it returns
    the LOSS sentinel -99999999.  The grid is not consulted: the result
    holds whatever the cells and [is_any_line_at] are. *)
Theorem heuristics_sentinels (brd : B) (rootPlayer : Z) :
  rootPlayer = 1 \/ rootPlayer = 2 ->
  (Board.get_outcome brd = rootPlayer -> Board.player brd = swap rootPlayer ->
   heuristics brd rootPlayer = 99999999)
  /\ (Board.get_outcome brd = swap rootPlayer -> Board.player brd = rootPlayer ->
      heuristics brd rootPlayer = -99999999).
Proof.
  intros [-> | ->]; unfold heuristics; split; intros -> ->; reflexivity.
Qed.

(** C7: on a board that neither player has won, [heuristics] is the sum
    over the occupied cells on a still-completable line of +1 for a cell
    of [rootPlayer] and -5 for a cell of the opponent; the other cells
    contribute nothing. *)
Theorem heuristics_non_terminal (brd : B) (rootPlayer : Z) :
  rootPlayer = 1 \/ rootPlayer = 2 ->
  Board.get_outcome brd <> 1 -> Board.get_outcome brd <> 2 ->
  heuristics brd rootPlayer = positional_score brd rootPlayer.
Proof.
  intros Hp H1 H2. apply heuristics_positional; [assumption| |];
    destruct Hp as [-> | ->]; change (swap 1) with 2; change (swap 2) with 1; tauto.
Qed.

End Evaluator.

(** ** Evaluator symmetry *)

Section Symmetry.

Context {B : Type} `{!Board.Ops B}.

Lemma swap_eqb (x y : Z) : (swap x =? swap y) = (x =? y).
Proof.
  unfold swap.
  destruct (Z.eqb_spec x 1), (Z.eqb_spec x 2), (Z.eqb_spec y 1), (Z.eqb_spec y 2);
    destruct (Z.eqb_spec x y); subst; try lia;
    repeat match goal with
           | |- context [?a =? ?b] => destruct (Z.eqb_spec a b); try lia
           end; reflexivity.
Qed.

Lemma fold_left_ext_in {A X : Type} (f g : A -> X -> A) (l : list X) (a : A) :
  (forall a x, In x l -> f a x = g a x) -> fold_left f l a = fold_left g l a.
Proof.
  revert a. induction l as [|x l IH]; intros a Hfg; simpl; [reflexivity|].
  rewrite Hfg by (left; reflexivity). apply IH. intros; apply Hfg; right; assumption.
Qed.

Lemma severity_step_swap (b b' : B) (me opponent severity i j : Z) :
  Board.board b' j i = swap (Board.board b j i) ->
  Board.is_any_line_at b' i j = Board.is_any_line_at b i j ->
  severity_step b' (swap me) (swap opponent) severity i j
  = severity_step b me opponent severity i j.
Proof.
  intros Hc Hl. unfold severity_step. rewrite Hc, Hl, !swap_eqb.
  change 0 with (swap 0) at 1. rewrite swap_eqb. reflexivity.
Qed.

Lemma mirrored_inv (b b' : B) :
  mirrored b b' = true ->
  Board.w b' = Board.w b /\ Board.h b' = Board.h b
  /\ Board.player b' = swap (Board.player b)
  /\ Board.get_outcome b' = swap (Board.get_outcome b)
  /\ forall c, In c (all_cells b) ->
       Board.board b' (snd c) (fst c) = swap (Board.board b (snd c) (fst c))
       /\ Board.is_any_line_at b' (fst c) (snd c) = Board.is_any_line_at b (fst c) (snd c).
Proof.
  unfold mirrored. rewrite !andb_true_iff, forallb_forall.
  intros [[[[Hw Hh] Hp] Ho] Hc]. repeat split; try (apply Z.eqb_eq; assumption).
  - apply Z.eqb_eq. specialize (Hc c H0). apply andb_true_iff in Hc. tauto.
  - apply eqb_prop. specialize (Hc c H0). apply andb_true_iff in Hc. tauto.
Qed.

Lemma scan_swap (b b' : B) (me opponent : Z) :
  mirrored b b' = true ->
  scan b' (swap me) (swap opponent) = scan b me opponent.
Proof.
  intros Hm. destruct (mirrored_inv b b' Hm) as (Hw & Hh & _ & _ & Hc).
  rewrite !scan_all_cells.
  replace (all_cells b') with (all_cells b) by (unfold all_cells; rewrite Hw, Hh; reflexivity).
  apply fold_left_ext_in. intros a c Hin. destruct (Hc c Hin).
  apply severity_step_swap; assumption.
Qed.

Lemma heuristics_swap (b b' : B) (A : Z) :
  mirrored b b' = true -> A = 1 \/ A = 2 ->
  heuristics b' (swap A) = heuristics b A.
Proof.
  intros Hm HA. destruct (mirrored_inv b b' Hm) as (_ & _ & Hp & Ho & _).
  unfold heuristics. rewrite Hp, Ho.
  pose proof (fun x => swap_eqb x 1 : (swap x =? 2) = (x =? 1)) as E1.
  pose proof (fun x => swap_eqb x 2 : (swap x =? 1) = (x =? 2)) as E2.
  destruct HA as [-> | ->].
  - change (swap 1) with 2. change (2 =? 1) with false. change (1 =? 1) with true.
    cbv iota beta. rewrite !E1, !E2.
    rewrite <- (scan_swap b b' 1 2 Hm). reflexivity.
  - change (swap 2) with 1. change (2 =? 1) with false. change (1 =? 1) with true.
    cbv iota beta. rewrite !E1, !E2.
    rewrite <- (scan_swap b b' 2 1 Hm). reflexivity.
Qed.

(** C8: evaluating a board for player [A] equals evaluating its
    colour-swapped mirror (player markers, turn owner and outcome
    exchanged) for the other player [A']. *)
Theorem evaluator_symmetry (b b' : B) (A A' : Z) :
  mirrored b b' = true ->
  (A = 1 /\ A' = 2) \/ (A = 2 /\ A' = 1) ->
  heuristics b A = heuristics b' A'.
Proof.
  intros Hm [[-> ->] | [-> ->]]; symmetry.
  - apply (heuristics_swap b b' 1 Hm). left; reflexivity.
  - apply (heuristics_swap b b' 2 Hm). right; reflexivity.
Qed.

End Symmetry.

(** ** Properties of the search *)

Section Search.

Context {B : Type} `{!Board.Ops B}.

(** The successors are the free columns, each with its board. *)
Lemma get_successors_map (brd : B) :
  get_successors brd
  = map (fun col => (Board.add_token brd col, col)) (Board.free_cols brd).
Proof.
  unfold get_successors.
  assert (Hfold : forall cols acc,
             fold_left (fun succ col => succ ++ [(Board.add_token brd col, col)]) cols acc
             = acc ++ map (fun col => (Board.add_token brd col, col)) cols).
  { induction cols as [|c cols IH]; intros acc; simpl.
    - rewrite app_nil_r. reflexivity.
    - rewrite IH, <- app_assoc. reflexivity. }
  destruct (Board.free_cols brd) as [|c cols]; [reflexivity|].
  rewrite Hfold. reflexivity.
Qed.

Lemma get_successors_nil (brd : B) :
  get_successors brd = [] <-> Board.free_cols brd = [].
Proof.
  rewrite get_successors_map.
  destruct (Board.free_cols brd); simpl; split; intros; (reflexivity || discriminate).
Qed.

(** *** Loops *)

Lemma for_break_mono {A St : Type} (body body' : St -> A -> option (ctl St))
    (xs : list A) (s : St) (r : St * list A) :
  (forall s x c, body s x = Some c -> body' s x = Some c) ->
  for_break body xs s = Some r -> for_break body' xs s = Some r.
Proof.
  intros Hb. revert s r. induction xs as [|x xs IH]; intros s r; simpl; [auto|].
  destruct (body s x) as [[s'|s']|] eqn:E; [| |discriminate].
  - rewrite (Hb _ _ _ E).
    destruct (for_break body xs s') as [[s'' seen]|] eqn:E'; [|discriminate].
    rewrite (IH _ _ E'). auto.
  - rewrite (Hb _ _ _ E). auto.
Qed.

Lemma for_break_total {A St : Type} (body : St -> A -> option (ctl St))
    (xs : list A) (s : St) :
  (forall s x, is_Some (body s x)) -> is_Some (for_break body xs s).
Proof.
  intros Hb. revert s. induction xs as [|x xs IH]; intros s; simpl; [eauto|].
  destruct (Hb s x) as [[s'|s'] ->]; [|eauto].
  destruct (IH s') as [[s'' seen] ->]. eauto.
Qed.

(** The body runs on a prefix of the items. *)
Lemma for_break_prefix {A St : Type} (body : St -> A -> option (ctl St))
    (xs : list A) (s s' : St) (seen : list A) :
  for_break body xs s = Some (s', seen) -> seen `prefix_of` xs.
Proof.
  revert s s' seen. induction xs as [|x xs IH]; intros s s' seen; simpl.
  - intros [= _ <-]. apply prefix_nil.
  - destruct (body s x) as [[s1|s1]|]; [| |discriminate].
    + destruct (for_break body xs s1) as [[s2 seen']|] eqn:E; [|discriminate].
      intros [= _ <-]. apply prefix_cons. eapply IH, E.
    + intros [= _ <-]. apply prefix_cons, prefix_nil.
Qed.

Lemma max_body_mono (child child' : B -> Z -> option search_result) beta st i c :
  (forall b a r, child b a = Some r -> child' b a = Some r) ->
  max_body child beta st i = Some c -> max_body child' beta st i = Some c.
Proof.
  intros Hc. unfold max_body. destruct st as [[bb bm] alpha].
  destruct (child (fst i) alpha) as [r|] eqn:E; [|discriminate].
  rewrite (Hc _ _ _ E). auto.
Qed.

Lemma min_body_mono (child child' : B -> Z -> option search_result) beta st i c :
  (forall b a r, child b a = Some r -> child' b a = Some r) ->
  min_body child beta st i = Some c -> min_body child' beta st i = Some c.
Proof.
  intros Hc. unfold min_body. destruct st as [[wb wm] alpha].
  destruct (child (fst i) alpha) as [r|] eqn:E; [|discriminate].
  rewrite (Hc _ _ _ E). auto.
Qed.

Lemma max_body_total (child : B -> Z -> option search_result) beta st i :
  (forall b a, is_Some (child b a)) -> is_Some (max_body child beta st i).
Proof.
  intros Hc. unfold max_body. destruct st as [[bb bm] alpha].
  destruct (Hc (fst i) alpha) as [[o move] ->].
  destruct (move >? bm), (_ >=? beta); try destruct (_ >=? alpha); eauto.
Qed.

Lemma min_body_total (child : B -> Z -> option search_result) beta st i :
  (forall b a, is_Some (child b a)) -> is_Some (min_body child beta st i).
Proof.
  intros Hc. unfold min_body. destruct st as [[wb wm] alpha].
  destruct (Hc (fst i) alpha) as [[o move] ->].
  destruct (move <? wm), (_ <=? beta); try destruct (_ <=? alpha); eauto.
Qed.

Lemma loop_result_Some (r : option (@loop_state B * list (@successor B)))
    (res : search_result) :
  loop_result r = Some res ->
  exists alpha seen, r = Some (fst res, snd res, alpha, seen).
Proof.
  destruct r as [[[[bb bm] alpha] seen]|]; simpl; [|discriminate].
  intros [= <-]. eauto.
Qed.

(** *** Fuel *)

Lemma maxValue_fuel_S (fuel : nat) brd n alpha beta player :
  maxValue_fuel (S fuel) brd n alpha beta player
  = if is_minus_one (terminalCondition n) then Some (None, heuristics brd player)
    else loop_result
           (max_loop (fun b a => minValue_fuel fuel b (n - 1) a beta player)
                     brd alpha beta).
Proof. reflexivity. Qed.

Lemma minValue_fuel_S (fuel : nat) brd n alpha beta player :
  minValue_fuel (S fuel) brd n alpha beta player
  = if is_minus_one (terminalCondition n) then Some (None, heuristics brd player)
    else loop_result
           (min_loop (fun b a => maxValue_fuel fuel b (n - 1) a beta player)
                     brd alpha beta).
Proof. reflexivity. Qed.

(** A call that returns with some fuel returns the same with more. *)
Lemma search_fuel_S (fuel : nat) :
  (forall brd n alpha beta player r,
      maxValue_fuel fuel brd n alpha beta player = Some r ->
      maxValue_fuel (S fuel) brd n alpha beta player = Some r)
  /\ (forall brd n alpha beta player r,
        minValue_fuel fuel brd n alpha beta player = Some r ->
        minValue_fuel (S fuel) brd n alpha beta player = Some r).
Proof.
  induction fuel as [|fuel [IHmax IHmin]]; [split; intros; discriminate|].
  split; intros brd n alpha beta player r.
  - rewrite !maxValue_fuel_S. destruct (is_minus_one (terminalCondition n)); [auto|].
    intros Hr. destruct (loop_result_Some _ _ Hr) as (a & seen & Hl).
    unfold max_loop in *. rewrite Hl in Hr.
    erewrite for_break_mono; [exact Hr | | exact Hl].
    intros s x c. apply max_body_mono. intros b a0 r0. apply IHmin.
  - rewrite !minValue_fuel_S. destruct (is_minus_one (terminalCondition n)); [auto|].
    intros Hr. destruct (loop_result_Some _ _ Hr) as (a & seen & Hl).
    unfold min_loop in *. rewrite Hl in Hr.
    erewrite for_break_mono; [exact Hr | | exact Hl].
    intros s x c. apply min_body_mono. intros b a0 r0. apply IHmax.
Qed.

Lemma maxValue_fuel_mono (fuel fuel' : nat) brd n alpha beta player r :
  (fuel <= fuel')%nat ->
  maxValue_fuel fuel brd n alpha beta player = Some r ->
  maxValue_fuel fuel' brd n alpha beta player = Some r.
Proof.
  induction 1 as [|fuel' _ IH]; [auto|].
  intros Hr. apply search_fuel_S, IH, Hr.
Qed.

Lemma minValue_fuel_mono (fuel fuel' : nat) brd n alpha beta player r :
  (fuel <= fuel')%nat ->
  minValue_fuel fuel brd n alpha beta player = Some r ->
  minValue_fuel fuel' brd n alpha beta player = Some r.
Proof.
  induction 1 as [|fuel' _ IH]; [auto|].
  intros Hr. apply search_fuel_S, IH, Hr.
Qed.

(** A call at depth [n >= 0] returns once it has more than [n] units of
    fuel. *)
Lemma search_fuel_enough (fuel : nat) :
  forall brd n alpha beta player,
    0 <= n -> (Z.to_nat n < fuel)%nat ->
    is_Some (maxValue_fuel fuel brd n alpha beta player)
    /\ is_Some (minValue_fuel fuel brd n alpha beta player).
Proof.
  induction fuel as [|fuel IH]; intros brd n alpha beta player Hn Hf; [lia|].
  rewrite maxValue_fuel_S, minValue_fuel_S. unfold terminalCondition.
  destruct (Z.eqb_spec n 0) as [->|Hn0]; cbn [is_minus_one]; [split; eauto|].
  change (-1 =? -1) with true in *.
  assert (Hchild : forall b a,
             is_Some (maxValue_fuel fuel b (n - 1) a beta player)
             /\ is_Some (minValue_fuel fuel b (n - 1) a beta player)).
  { intros b a. apply IH; lia. }
  split.
  - destruct (for_break_total (max_body (fun b a => minValue_fuel fuel b (n - 1) a beta player) beta)
                (get_successors brd) (None, -999999999, alpha)) as [[[[bb bm] a'] seen] E].
    { intros s x. apply max_body_total. intros b a. apply Hchild. }
    unfold max_loop. rewrite E. simpl. eauto.
  - destruct (for_break_total (min_body (fun b a => maxValue_fuel fuel b (n - 1) a beta player) beta)
                (get_successors brd) (None, 999999999, alpha)) as [[[[bb bm] a'] seen] E].
    { intros s x. apply min_body_total. intros b a. apply Hchild. }
    unfold min_loop. rewrite E. simpl. eauto.
Qed.

(** [maxValue] and [minValue] return at every depth [n >= 0]. *)
Lemma maxValue_total brd n alpha beta player :
  0 <= n -> is_Some (maxValue brd n alpha beta player).
Proof. intros Hn. apply search_fuel_enough; [assumption | lia]. Qed.

Lemma minValue_total brd n alpha beta player :
  0 <= n -> is_Some (minValue brd n alpha beta player).
Proof. intros Hn. apply search_fuel_enough; [assumption | lia]. Qed.

(** *** The equations of the search *)

Lemma terminal_0 : is_minus_one (terminalCondition 0) = true.
Proof. reflexivity. Qed.

Lemma terminal_ne (n : Z) : n <> 0 -> is_minus_one (terminalCondition n) = false.
Proof. intros Hn. unfold terminalCondition. destruct (Z.eqb_spec n 0); [lia | reflexivity]. Qed.

Lemma maxValue_0 brd alpha beta player :
  maxValue brd 0 alpha beta player = Some (None, heuristics brd player).
Proof. reflexivity. Qed.

Lemma minValue_0 brd alpha beta player :
  minValue brd 0 alpha beta player = Some (None, heuristics brd player).
Proof. reflexivity. Qed.

Lemma maxValue_step brd n alpha beta player :
  1 <= n ->
  maxValue brd n alpha beta player
  = loop_result (max_loop (fun b a => minValue b (n - 1) a beta player) brd alpha beta).
Proof.
  intros Hn. unfold maxValue, minValue.
  replace (Z.to_nat n) with (S (Z.to_nat (n - 1))) by lia.
  rewrite maxValue_fuel_S, terminal_ne by lia. reflexivity.
Qed.

Lemma minValue_step brd n alpha beta player :
  1 <= n ->
  minValue brd n alpha beta player
  = loop_result (min_loop (fun b a => maxValue b (n - 1) a beta player) brd alpha beta).
Proof.
  intros Hn. unfold maxValue, minValue.
  replace (Z.to_nat n) with (S (Z.to_nat (n - 1))) by lia.
  rewrite minValue_fuel_S, terminal_ne by lia. reflexivity.
Qed.

Lemma minValue_examined_step brd n alpha beta player :
  1 <= n ->
  minValue_examined brd n alpha beta player
  = snd <$> min_loop (fun b a => maxValue b (n - 1) a beta player) brd alpha beta.
Proof.
  intros Hn. unfold minValue_examined, maxValue.
  replace (Z.to_nat n) with (S (Z.to_nat (n - 1))) by lia.
  rewrite terminal_ne by lia. reflexivity.
Qed.

(** The value a call returns is the one its loop ended with, and the
    successors it examined are those the loop ran on. *)
Lemma minValue_examined_result brd n alpha beta player :
  0 <= n ->
  exists res seen,
    minValue brd n alpha beta player = Some res
    /\ minValue_examined brd n alpha beta player = Some seen
    /\ seen `prefix_of` get_successors brd.
Proof.
  intros Hn. destruct (Z.eq_dec n 0) as [->|Hn0].
  - exists (None, heuristics brd player), []. repeat split. apply prefix_nil.
  - rewrite minValue_step, minValue_examined_step by lia.
    destruct (minValue_total brd n alpha beta player Hn) as [res Hres].
    rewrite minValue_step in Hres by lia.
    destruct (loop_result_Some _ _ Hres) as (a & seen & Hl).
    exists res, seen. rewrite Hl. destruct res. repeat split.
    eapply for_break_prefix, Hl.
Qed.

End Search.

(** ** The loop of [minValue] *)

Section MinLoop.

Context {B : Type} `{!Board.Ops B}.

(** One pass of the body of [minValue]: the running minimum is updated,
    the loop is left when it is at most [beta], and otherwise [alpha]
    takes the running minimum when that is at most [alpha]. *)
Lemma min_body_eq (child : B -> Z -> option search_result) (beta : Z)
    (worstBoard : option successor) (worstMove alpha : Z) (i : successor)
    (board : option successor) (move : Z) :
  child (fst i) alpha = Some (board, move) ->
  min_body child beta (worstBoard, worstMove, alpha) i
  = let worstBoard' := if move <? worstMove then Some i else worstBoard in
    let worstMove' := Z.min move worstMove in
    Some (if worstMove' <=? beta then Break (worstBoard', worstMove', alpha)
          else Continue (worstBoard', worstMove',
                         if worstMove' <=? alpha then worstMove' else alpha)).
Proof.
  intros Hc. unfold min_body. rewrite Hc. cbv zeta.
  destruct (Z.ltb_spec move worstMove).
  - rewrite Z.min_l by lia.
    destruct (move <=? beta); [reflexivity|]. destruct (move <=? alpha); reflexivity.
  - rewrite Z.min_r by lia.
    destruct (worstMove <=? beta); [reflexivity|].
    destruct (worstMove <=? alpha); reflexivity.
Qed.

(** The loop is left exactly when the running minimum is at most [beta]. *)
Lemma min_body_break (child : B -> Z -> option search_result) (beta : Z)
    (worstBoard : option successor) (worstMove alpha : Z) (i : successor)
    (board : option successor) (move : Z) :
  child (fst i) alpha = Some (board, move) ->
  (exists st, min_body child beta (worstBoard, worstMove, alpha) i = Some (Break st))
  <-> Z.min move worstMove <= beta.
Proof.
  intros Hc. rewrite (min_body_eq _ _ _ _ _ _ _ _ Hc). cbv zeta.
  destruct (Z.leb_spec (Z.min move worstMove) beta); split; intros Hx;
    try assumption; try lia; eauto.
  destruct Hx as [st [=]].
Qed.

(** When the first successor scores at most [beta] (and below the
    999999999 the running minimum starts from), the loop ends on it. *)
Lemma min_loop_first (child : B -> Z -> option search_result) (brd : B)
    (alpha beta : Z) (s : successor) (rest : list successor)
    (board : option successor) (move : Z) :
  get_successors brd = s :: rest ->
  child (fst s) alpha = Some (board, move) ->
  move <= beta -> move < 999999999 ->
  min_loop child brd alpha beta = Some ((Some s, move, alpha), [s]).
Proof.
  intros Hs Hc Hb Hm. unfold min_loop. rewrite Hs. cbn [for_break].
  rewrite (min_body_eq _ _ _ _ _ _ _ _ Hc). cbv zeta.
  rewrite Z.min_l by lia.
  destruct (Z.leb_spec move beta) as [_|]; [|lia].
  destruct (Z.ltb_spec move 999999999) as [_|]; [|lia].
  reflexivity.
Qed.

(** The board a loop of [minValue] ends with is the one it started with or
    one of the successors. *)
Lemma for_break_min_board (child : B -> Z -> option search_result) (beta : Z)
    (xs : list successor) (st st' : loop_state) (seen : list successor) :
  for_break (min_body child beta) xs st = Some (st', seen) ->
  fst (fst st') = fst (fst st) \/ exists s, fst (fst st') = Some s /\ In s xs.
Proof.
  revert st st' seen. induction xs as [|x xs IH]; intros st st' seen; simpl.
  - intros [= <- _]. left; reflexivity.
  - destruct st as [[wb wm] a]. unfold min_body at 1.
    destruct (child (fst x) a) as [[o move]|]; [|discriminate].
    destruct (move <? wm).
    + destruct (move <=? beta).
      * intros [= <- _]. right. exists x. simpl; auto.
      * destruct (move <=? a);
          (destruct (for_break _ xs _) as [[s2 seen']|] eqn:E; [|discriminate]);
          intros [= <- _]; destruct (IH _ _ _ E) as [-> | (s & -> & Hin)]; simpl; eauto.
    + destruct (wm <=? beta).
      * intros [= <- _]. left; reflexivity.
      * destruct (wm <=? a);
          (destruct (for_break _ xs _) as [[s2 seen']|] eqn:E; [|discriminate]);
          intros [= <- _]; destruct (IH _ _ _ E) as [-> | (s & -> & Hin)]; simpl; eauto.
Qed.

(** The board [minValue] returns, when it returns one, is a successor of
    the board it was called on. *)
Lemma minValue_board (brd : B) (n alpha beta player : Z) (s : successor) (v : Z) :
  0 <= n ->
  minValue brd n alpha beta player = Some (Some s, v) -> In s (get_successors brd).
Proof.
  intros Hn. destruct (Z.eq_dec n 0) as [->|Hn0].
  - rewrite minValue_0. discriminate.
  - rewrite minValue_step by lia. intros Hr.
    destruct (loop_result_Some _ _ Hr) as (a & seen & Hl).
    apply for_break_min_board in Hl. simpl in Hl.
    destruct Hl as [Hl | (s' & [= <-] & Hin)]; [discriminate | assumption].
Qed.

(** C10, amended: a call of [minValue] with [beta] the positive sentinel,
    at depth [n >= 1], on a board with a successor, returns after
    examining only its first successor, with that successor and its score,
    whenever the score [maxValue] returns for that successor is at most
    99999999. *)
Theorem minValue_first_successor (brd : B) (n alpha player : Z)
    (s : successor) (rest : list successor) (board : option successor) (move : Z) :
  1 <= n ->
  get_successors brd = s :: rest ->
  maxValue (fst s) (n - 1) alpha 99999999 player = Some (board, move) ->
  move <= 99999999 ->
  minValue brd n alpha 99999999 player = Some (Some s, move)
  /\ minValue_examined brd n alpha 99999999 player = Some [s].
Proof.
  intros Hn Hs Hc Hm.
  rewrite minValue_step, minValue_examined_step by assumption.
  rewrite (min_loop_first _ brd alpha 99999999 s rest board move Hs Hc) by lia.
  split; reflexivity.
Qed.

(** At depth 1 the score of the first successor is the evaluator's. *)
Lemma minValue_depth_1 (brd : B) (alpha player : Z) (s : successor)
    (rest : list successor) :
  get_successors brd = s :: rest ->
  heuristics (fst s) player <= 99999999 ->
  minValue brd 1 alpha 99999999 player = Some (Some s, heuristics (fst s) player).
Proof.
  intros Hs Hh. rewrite minValue_step by lia.
  rewrite (min_loop_first _ brd alpha 99999999 s rest None (heuristics (fst s) player) Hs)
    by (try apply maxValue_0; lia).
  reflexivity.
Qed.

End MinLoop.

(** ** The controller *)

Section Controller.

Context {B : Type} `{!Board.Ops B}.

Lemma range_nonneg (hi i : Z) : In i (range 0 hi) -> 0 <= i.
Proof. unfold range. rewrite in_map_iff. intros (k & <- & _). lia. Qed.

(** The loop of [makeMove] returns: every search call it issues has
    a depth [>= 0]. *)
Lemma makeMove_loop_total time clock (brd : B) depths k bestSeverity bestMove :
  (forall i, In i depths -> 0 <= i) ->
  is_Some (makeMove_loop time clock brd depths k bestSeverity bestMove).
Proof.
  revert k bestSeverity bestMove.
  induction depths as [|i depths IH]; intros k bs bm Hd; cbn [makeMove_loop]; [eauto|].
  destruct (minValue_total brd i (-99999999) 99999999 (Board.player brd)) as [[board state] ->].
  { apply Hd. left; reflexivity. }
  destruct (state >=? 9999999); [eauto|].
  destruct (state <=? -9999999); [eauto|].
  destruct (state >? bs);
    (destruct (over_budget _); [eauto|]);
    (edestruct IH as [[a cs] ->]; [intros; apply Hd; right; eassumption | eauto]).
Qed.

Lemma makeMove_total (max_depth : Z) time (brd : B) :
  is_Some (makeMove max_depth time brd).
Proof.
  unfold makeMove, makeMove_run.
  destruct (makeMove_loop_total time (time O) brd (range 0 max_depth) 1%nat 0 (PyInt 0))
    as [r ->]; [apply range_nonneg | simpl; eauto].
Qed.

(** The search calls [makeMove] issues are [minValue] calls with the two
    sentinels and the player to move, over a prefix of the depths. *)
Lemma makeMove_loop_calls time clock (brd : B) depths k bestSeverity bestMove a cs :
  makeMove_loop time clock brd depths k bestSeverity bestMove = Some (a, cs) ->
  map (fun i => Call MIN i (-99999999) 99999999 (Board.player brd)) depths
  = cs ++ map (fun i => Call MIN i (-99999999) 99999999 (Board.player brd))
            (drop (length cs) depths).
Proof.
  revert k bestSeverity bestMove a cs.
  induction depths as [|i depths IH]; intros k bs bm a cs; cbn [makeMove_loop].
  - intros [= _ <-]. reflexivity.
  - destruct (minValue brd i _ _ _) as [[board state]|]; [|discriminate].
    destruct (state >=? 9999999); [intros [= _ <-]; reflexivity|].
    destruct (state <=? -9999999); [intros [= _ <-]; reflexivity|].
    destruct (state >? bs);
      (destruct (over_budget _); [intros [= _ <-]; reflexivity|]);
      (destruct (makeMove_loop _ _ _ depths _ _ _) as [[a' cs']|] eqn:E; [|discriminate]);
      intros [= _ <-]; simpl; f_equal; eapply IH, E.
Qed.

Lemma makeMove_calls_prefix (max_depth : Z) time (brd : B) (cs : list call) :
  makeMove_calls max_depth time brd = Some cs ->
  cs `prefix_of` map (fun i => Call MIN i (-99999999) 99999999 (Board.player brd))
                     (range 0 max_depth).
Proof.
  unfold makeMove_calls, makeMove_run.
  destruct (makeMove_loop _ _ _ _ _ _ _) as [[a cs']|] eqn:E; [|discriminate].
  intros [= <-]. rewrite (makeMove_loop_calls _ _ _ _ _ _ _ _ _ E).
  apply prefix_app_r. reflexivity.
Qed.

(** A column [makeMove] answers is a free column of the board. *)
Lemma makeMove_loop_legal time clock (brd : B) depths k bestSeverity bestMove c cs :
  (forall i, In i depths -> 0 <= i) ->
  (forall s, bestMove = PyTuple s -> In s (get_successors brd)) ->
  makeMove_loop time clock brd depths k bestSeverity bestMove = Some (Column c, cs) ->
  In c (Board.free_cols brd).
Proof.
  assert (Hcol : forall o, (forall s, o = Some s -> In s (get_successors brd)) ->
                           item1 (of_board o) = Column c -> In c (Board.free_cols brd)).
  { intros [s|] Ho; simpl; [|discriminate]. intros [= <-].
    specialize (Ho s eq_refl). rewrite get_successors_map, in_map_iff in Ho.
    destruct Ho as (col & <- & Hin). assumption. }
  revert k bestSeverity bestMove cs.
  induction depths as [|i depths IH]; intros k bs bm cs Hd Hbm; cbn [makeMove_loop].
  - destruct bm as [z| |s]; simpl; try discriminate. intros [= <- _].
    specialize (Hbm s eq_refl). rewrite get_successors_map, in_map_iff in Hbm.
    destruct Hbm as (col & <- & Hin). assumption.
  - destruct (minValue brd i _ _ _) as [[board state]|] eqn:Hmin; [|discriminate].
    assert (Hboard : forall s, board = Some s -> In s (get_successors brd)).
    { intros s ->. eapply minValue_board; [|exact Hmin]. apply Hd. left; reflexivity. }
    destruct (state >=? 9999999); [intros [= Ha _]; eauto|].
    destruct (state <=? -9999999); [intros [= Ha _]; eauto|].
    destruct (state >? bs);
      (destruct (over_budget _); [intros [= Ha _]; eauto|]);
      (destruct (makeMove_loop _ _ _ depths _ _ _) as [[a' cs']|] eqn:E; [|discriminate]);
      intros [= -> _]; (eapply IH; [intros; apply Hd; right; eassumption | | exact E]);
      intros s Hs; apply Hboard; destruct board; simpl in Hs; congruence.
Qed.

Lemma makeMove_legal (max_depth : Z) time (brd : B) (c : Z) :
  makeMove max_depth time brd = Some (Column c) -> In c (Board.free_cols brd).
Proof.
  unfold makeMove, makeMove_run.
  destruct (makeMove_loop _ _ _ _ _ _ _) as [[a cs]|] eqn:E; [|discriminate].
  intros [= ->]. eapply makeMove_loop_legal; [apply range_nonneg | | exact E].
  intros s [=].
Qed.

(** With [max_depth = 1] the only search is the one of depth 0, which has
    no board to return: [makeMove] raises, whatever the board and the
    clock. *)
Lemma makeMove_depth_one time (brd : B) :
  makeMove_run 1 time brd
  = Some (TypeError, [Call MIN 0 (-99999999) 99999999 (Board.player brd)]).
Proof.
  unfold makeMove_run. change (range 0 1) with [0]. cbn [makeMove_loop].
  rewrite minValue_0. cbn [of_board item1].
  destruct (_ >=? 9999999); [reflexivity|].
  destruct (_ <=? -9999999); [reflexivity|].
  destruct (_ >? 0); destruct (over_budget _); reflexivity.
Qed.

(** With [max_depth <= 0] no search is made and [bestMove] is still the
    integer 0. *)
Lemma makeMove_no_depth (max_depth : Z) time (brd : B) :
  max_depth <= 0 -> makeMove_run max_depth time brd = Some (TypeError, []).
Proof.
  intros Hd. unfold makeMove_run, range.
  replace (Z.to_nat (max_depth - 0)) with O by lia. reflexivity.
Qed.

End Controller.

(** ** Successors and the store *)

Section Successors.

Context {B : Type} `{!Board.Ops B}.

Lemma successors_loop_ok (brd : ref) (v : B) (freecols : list Z) :
  forall (succ : list (ref * Z)) (σ : gmap ref B),
    σ !! brd = Some v ->
    exists new σ',
      successors_loop brd freecols succ σ = Some (succ ++ new, σ')
      /\ map snd new = freecols
      /\ NoDup (map fst new)
      /\ (forall l, l ∈ dom σ -> σ' !! l = σ !! l)
      /\ Forall (fun s => (fst s ∉ dom σ)
                          /\ σ' !! fst s = Some (Board.add_token v (snd s))) new.
Proof.
  induction freecols as [|col freecols IH]; intros succ σ Hv.
  - exists [], σ. rewrite app_nil_r. repeat split; auto. constructor.
  - cbn [successors_loop]. unfold copy, add_token_at. rewrite Hv. cbn [mbind option_bind].
    set (nb := fresh (dom σ)).
    assert (Hnb : nb ∉ dom σ) by apply is_fresh.
    assert (Hne : nb <> brd).
    { intros ->. apply Hnb. apply elem_of_dom. eauto. }
    rewrite lookup_insert_eq. cbn [mbind option_bind]. rewrite insert_insert_eq.
    set (σ2 := <[nb := Board.add_token v col]> σ).
    assert (Hv2 : σ2 !! brd = Some v).
    { unfold σ2. rewrite lookup_insert_ne by assumption. assumption. }
    destruct (IH (succ ++ [(nb, col)]) σ2 Hv2) as (new & σ' & Hrun & Hcols & Hnd & Hkept & Hcl).
    exists ((nb, col) :: new), σ'.
    assert (Hdom : forall l, l ∈ dom σ -> l ∈ dom σ2).
    { intros l Hl. unfold σ2. rewrite dom_insert_L. set_solver. }
    assert (Hin2 : nb ∈ dom σ2).
    { unfold σ2. rewrite dom_insert_L. set_solver. }
    repeat split.
    + rewrite Hrun, <- app_assoc. reflexivity.
    + simpl. rewrite Hcols. reflexivity.
    + simpl. constructor; [|assumption].
      intros Hin. apply list_elem_of_fmap in Hin as ([l c] & -> & Hin).
      rewrite Forall_forall in Hcl. destruct (Hcl _ Hin) as [Hfresh _]. auto.
    + intros l Hl. rewrite Hkept by auto. unfold σ2.
      apply lookup_insert_ne. intros ->. auto.
    + constructor.
      * simpl. split; [assumption|]. rewrite Hkept by assumption.
        unfold σ2. apply lookup_insert_eq.
      * eapply Forall_impl; [exact Hcl|]. intros [l c] [Hfresh Hl]. simpl in *.
        split; [|assumption]. intros Hin. apply Hfresh, Hdom, Hin.
Qed.

(** C9: [get_successors] returns the empty list iff the board has no free
    column; otherwise one successor per free column, in the order of
    [free_cols], each a new board object, distinct from the others and
    from every object of the store it was called in, that holds the board
    with a token added in that column; the input board and every other
    object of the store are left as they were. *)
Theorem get_successors_at_spec (σ : gmap ref B) (brd : ref) (v : B) :
  σ !! brd = Some v ->
  exists succ σ',
    get_successors_at σ brd = Some (succ, σ')
    /\ (succ = [] <-> Board.free_cols v = [])
    /\ successors_ok σ σ' v succ
    /\ σ' !! brd = Some v.
Proof.
  intros Hv. unfold get_successors_at, free_cols_at. rewrite Hv.
  cbn [fmap option_fmap option_map mbind option_bind].
  destruct (Board.free_cols v) as [|col cols] eqn:Hfree.
  - exists [], σ. repeat split; auto; constructor.
  - destruct (successors_loop_ok brd v (col :: cols) [] σ Hv)
      as (new & σ' & Hrun & Hcols & Hnd & Hkept & Hcl).
    exists new, σ'. rewrite Hrun. repeat split; auto.
    + intros ->. discriminate.
    + discriminate.
    + rewrite Hfree. assumption.
    + rewrite Hkept; [assumption|]. apply elem_of_dom. eauto.
Qed.

(** Read in the store it returns, the successors are the board values of
    [get_successors]. *)
Lemma get_successors_at_values (σ σ' : gmap ref B) (v : B) (succ : list (ref * Z)) :
  successors_ok σ σ' v succ ->
  map (fun s => (σ' !! fst s, snd s)) succ
  = map (fun s => (Some (fst s), snd s)) (get_successors v).
Proof.
  intros [Hcols _ _ Hcl]. rewrite get_successors_map, <- Hcols, !map_map. simpl.
  apply map_ext_in. intros [l c] Hin. rewrite Forall_forall in Hcl.
  destruct (Hcl (l, c)) as [_ ->]; [apply list_elem_of_In; assumption | reflexivity].
Qed.

End Successors.

(** ** The agent on the grid board *)

Import Grid.

(** *** The mirror of a grid board *)

Lemma swap_involutive (m : Z) : swap (swap m) = m.
Proof.
  unfold swap. destruct (Z.eqb_spec m 1) as [->|]; [reflexivity|].
  destruct (Z.eqb_spec m 2) as [->|]; [reflexivity|].
  destruct (Z.eqb_spec m 1); [lia|]. destruct (Z.eqb_spec m 2); [lia | reflexivity].
Qed.

Lemma existsb_ext {A : Type} (f g : A -> bool) (l : list A) :
  (forall x, f x = g x) -> existsb f l = existsb g l.
Proof. intros E. induction l as [|x l IH]; simpl; [reflexivity|]. rewrite E, IH; reflexivity. Qed.

Lemma forallb_map_ext {A X : Type} (f : X -> bool) (g : A -> X) (f' : A -> bool)
    (l : list A) :
  (forall x, f (g x) = f' x) -> forallb f (map g l) = forallb f' l.
Proof. intros E. induction l as [|x l IH]; simpl; [reflexivity|]. rewrite E, IH; reflexivity. Qed.

Lemma cell_mirror (b : t) (x y : Z) : cell (mirror b) x y = swap (cell b x y).
Proof.
  unfold cell. change (in_bounds (mirror b) x y) with (in_bounds b x y).
  destruct (in_bounds b x y); [|reflexivity].
  change (grid (mirror b)) with (map (map swap) (grid b)).
  change (@nil Z) with (map swap []) at 1. rewrite map_nth.
  change 0 with (swap 0) at 1. apply map_nth.
Qed.

Lemma window_mirror (b : t) (x y dx dy : Z) :
  window (mirror b) x y dx dy = map swap <$> window b x y dx dy.
Proof.
  unfold window. change (connect (mirror b)) with (connect b).
  change (in_bounds (mirror b)) with (in_bounds b).
  destruct (_ && _); [|reflexivity]. simpl. f_equal.
  rewrite map_map. apply map_ext. intros k. apply cell_mirror.
Qed.

Lemma won_at_mirror (b : t) (m x y : Z) : won_at (mirror b) m x y = won_at b (swap m) x y.
Proof.
  unfold won_at. apply existsb_ext. intros d. rewrite window_mirror.
  destruct (window b x y (fst d) (snd d)) as [cs|]; [|reflexivity]. simpl.
  apply forallb_map_ext. intros c.
  rewrite <- (swap_involutive m) at 1. apply swap_eqb.
Qed.

Lemma wins_mirror (b : t) (m : Z) : wins (mirror b) m = wins b (swap m).
Proof.
  unfold wins. change (cells (mirror b)) with (cells b).
  apply existsb_ext. intros c. apply won_at_mirror.
Qed.

Lemma free_cols_mirror (b : t) : free_cols (mirror b) = free_cols b.
Proof.
  unfold free_cols. change (width (mirror b)) with (width b).
  change (height (mirror b)) with (height b).
  apply List.filter_ext. intros x. rewrite cell_mirror.
  change 0 with (swap 0) at 1. apply swap_eqb.
Qed.

(** The outcome of the mirror is the outcome exchanged, on a board that
    does not hold a line of each player. *)
Lemma get_outcome_mirror (b : t) :
  wins b 1 && wins b 2 = false ->
  get_outcome (mirror b) = swap (get_outcome b).
Proof.
  unfold get_outcome. rewrite !wins_mirror, free_cols_mirror.
  change (swap 1) with 2. change (swap 2) with 1.
  destruct (wins b 1), (wins b 2); try reflexivity; [discriminate|].
  destruct (free_cols b); reflexivity.
Qed.

(** Whether a cell lies on a still-completable line does not depend on the
    colours. *)
Lemma is_any_line_at_mirror (b : t) (x y : Z) :
  is_any_line_at (mirror b) x y = is_any_line_at b x y.
Proof.
  unfold is_any_line_at. change (connect (mirror b)) with (connect b).
  apply existsb_ext. intros d. apply existsb_ext. intros k.
  rewrite window_mirror.
  destruct (window b _ _ (fst d) (snd d)) as [cs|]; [|reflexivity]. simpl.
  apply forallb_map_ext. intros c. rewrite cell_mirror, swap_eqb.
  change 0 with (swap 0) at 1. rewrite swap_eqb. reflexivity.
Qed.

(** [mirror b] is the colour-swapped mirror of [b]. *)
Lemma mirror_mirrored (b : t) :
  wins b 1 && wins b 2 = false -> mirrored b (mirror b) = true.
Proof.
  intros Hw. unfold mirrored.
  rewrite !andb_true_iff, forallb_forall. repeat split.
  - apply Z.eqb_refl.
  - apply Z.eqb_refl.
  - apply Z.eqb_refl.
  - apply Z.eqb_eq. apply get_outcome_mirror, Hw.
  - intros c _. apply andb_true_iff. split.
    + apply Z.eqb_eq. apply (cell_mirror b (fst c) (snd c)).
    + apply eqb_true_iff. apply is_any_line_at_mirror.
Qed.

(** On the grid board: the evaluation of a board for player 1 is the
    evaluation of its mirror for player 2, and the other way round. *)
Lemma heuristics_mirror (b : t) :
  wins b 1 && wins b 2 = false ->
  heuristics b 1 = heuristics (mirror b) 2 /\ heuristics b 2 = heuristics (mirror b) 1.
Proof.
  intros Hw. pose proof (mirror_mirrored b Hw) as Hm. split; symmetry.
  - apply (heuristics_swap b (mirror b) 1 Hm). left; reflexivity.
  - apply (heuristics_swap b (mirror b) 2 Hm). right; reflexivity.
Qed.

(** *** The evaluator on example boards *)

(** After the winning token of player 1 in column 0 player 2 is to move:
    WIN for player 1, LOSS for player 2. *)
Lemma heuristics_sentinels_witness :
  heuristics (add_token win_left 0) 1 = 99999999
  /\ heuristics (add_token win_left 0) 2 = -99999999.
Proof.
  split.
  - apply (heuristics_sentinels (add_token win_left 0) 1); [left|..]; reflexivity.
  - apply (heuristics_sentinels (add_token win_left 0) 2); [right|..]; reflexivity.
Defined.

(** A board nobody has won. *)
Lemma heuristics_non_terminal_witness :
  heuristics (add_token win_left 1) 1 = positional_score (add_token win_left 1) 1.
Proof.
  apply (heuristics_non_terminal (add_token win_left 1) 1);
    [left; reflexivity | vm_compute; discriminate | vm_compute; discriminate].
Defined.

(** A board and its mirror. *)
Lemma evaluator_symmetry_witness :
  heuristics (add_token win_left 1) 1 = heuristics (mirror (add_token win_left 1)) 2.
Proof.
  apply (evaluator_symmetry (add_token win_left 1) (mirror (add_token win_left 1)) 1 2);
    [vm_compute; reflexivity | left; split; reflexivity].
Defined.

(** *** The successors of the empty board, in a store that holds it *)

Lemma get_successors_at_spec_witness :
  exists succ σ',
    get_successors_at one_board 1%positive = Some (succ, σ')
    /\ (succ = [] <-> Board.free_cols empty = [])
    /\ successors_ok one_board σ' empty succ
    /\ σ' !! 1%positive = Some empty.
Proof.
  apply (get_successors_at_spec one_board 1%positive empty). reflexivity.
Defined.

(** *** The search on example boards *)

(** At depth 1 the first successor of [win_middle] scores -2. *)
Lemma minValue_first_successor_witness :
  minValue win_middle 1 (-99999999) 99999999 1
  = Some (Some (add_token win_middle 0, 0), -2)
  /\ minValue_examined win_middle 1 (-99999999) 99999999 1
     = Some [(add_token win_middle 0, 0)].
Proof.
  apply (minValue_first_successor win_middle 1 (-99999999) 1
           (add_token win_middle 0, 0)
           [(add_token win_middle 1, 1); (add_token win_middle 2, 2)] None (-2));
    [lia | vm_compute; reflexivity | vm_compute; reflexivity | lia].
Defined.

(** C10, as stated, fails: with two free cells left and depth 3, the score
    of the first successor is the 999999999 that [minValue] starts from and
    returns two plies down, on the full board; it is above 99999999, the
    loop goes on, and both successors are examined. *)
Lemma minValue_examines_two :
  get_successors two_left <> []
  /\ 1 <= 3
  /\ minValue_examined two_left 3 (-99999999) 99999999 (Board.player two_left)
     = Some (get_successors two_left)
  /\ length (get_successors two_left) = 2%nat
  /\ ~ examines_only_first two_left 3 (-99999999) 99999999 (Board.player two_left).
Proof.
  assert (E : minValue_examined two_left 3 (-99999999) 99999999 (Board.player two_left)
              = Some (get_successors two_left)) by (vm_compute; reflexivity).
  repeat split; try assumption.
  - vm_compute. discriminate.
  - lia.
  - intros (s & rest & Hs & Hex). rewrite E, Hs in Hex.
    injection Hex as ->. vm_compute in Hs. discriminate.
Qed.

(** C1: pruning changes the score.  At depth 1 on [win_left], [minValue]
    returns the score of its first successor, 99999999, where plain minimax
    takes the minimum over the three successors, -7; at depth 2 on
    [win_middle], [maxValue] returns -7 where plain minimax gives -8. *)
Theorem pruning_changes_score :
  snd <$> minValue win_left 1 (-99999999) 99999999 1 = Some 99999999
  /\ minimax_min 1 win_left 1 = -7
  /\ snd <$> maxValue win_middle 2 (-99999999) 99999999 1 = Some (-7)
  /\ minimax_max 2 win_middle 1 = -8.
Proof. repeat split; vm_compute; reflexivity. Qed.

(** C2: [makeMove] fails on boards with a free column: with [max_depth = 1]
    on the empty board; with [max_depth = 7] when the clock passes 12
    seconds during the first pass of the loop; with [max_depth = 4] on
    a board with two free cells. *)
Theorem makeMove_raises :
  Board.free_cols empty <> []
  /\ makeMove 1 frozen empty = Some TypeError
  /\ makeMove 7 slow empty = Some TypeError
  /\ Board.free_cols two_left <> []
  /\ makeMove 4 frozen two_left = Some TypeError.
Proof. repeat split; vm_compute; (reflexivity || discriminate). Qed.

(** C3: the search call of [makeMove] is a MIN node.  On [win_middle] with
    [max_depth = 2] it issues two [minValue] calls and answers column 0, of
    score -2, although a MAX node at the same board finds column 1 with the
    WIN score. *)
Theorem makeMove_root_is_min :
  makeMove_run 2 frozen win_middle
  = Some (Column 0, [Call MIN 0 (-99999999) 99999999 1;
                     Call MIN 1 (-99999999) 99999999 1])
  /\ heuristics (add_token win_middle 0) 1 = -2
  /\ maxValue win_middle 1 (-99999999) 99999999 1
     = Some (Some (add_token win_middle 1, 1), 99999999).
Proof. repeat split; vm_compute; reflexivity. Qed.

(** C4: the depths searched are 0 to [max_depth - 1]: depth 0 alone for
    [max_depth = 1], and 0, 1, 2 for [max_depth = 3]. *)
Theorem makeMove_depths_from_zero :
  makeMove_calls 1 frozen empty = Some [Call MIN 0 (-99999999) 99999999 1]
  /\ makeMove_calls 3 frozen empty
     = Some [Call MIN 0 (-99999999) 99999999 1;
             Call MIN 1 (-99999999) 99999999 1;
             Call MIN 2 (-99999999) 99999999 1].
Proof. split; vm_compute; reflexivity. Qed.

(** C5: [minValue] stops on [beta], not on [alpha].  On [win_middle] at
    depth 1 with [alpha = -99999999 < beta = 99999999] the running minimum
    after the first successor is -2, above [alpha]; the loop stops there,
    with the successors of columns 1 and 2 unexamined. *)
Theorem minValue_stops_on_beta :
  -99999999 < 99999999
  /\ map snd (get_successors win_middle) = [0; 1; 2]
  /\ minValue_examined win_middle 1 (-99999999) 99999999 1
     = Some [(add_token win_middle 0, 0)]
  /\ minValue win_middle 1 (-99999999) 99999999 1
     = Some (Some (add_token win_middle 0, 0), -2)
  /\ -99999999 < -2.
Proof. repeat split; try lia; vm_compute; reflexivity. Qed.

(** ** More on the search *)

Section SearchMore.

Context {B : Type} `{!Board.Ops B}.

Lemma maxValue_examined_step brd n alpha beta player :
  1 <= n ->
  maxValue_examined brd n alpha beta player
  = snd <$> max_loop (fun b a => minValue b (n - 1) a beta player) brd alpha beta.
Proof.
  intros Hn. unfold maxValue_examined, minValue.
  replace (Z.to_nat n) with (S (Z.to_nat (n - 1))) by lia.
  rewrite terminal_ne by lia. reflexivity.
Qed.

(** The loops never compare with [alpha]: two passes of a body that differ
    in [alpha] only, on a recursive call that ignores [alpha], leave or
    stay in the loop alike, with the same board and value. *)
Lemma max_body_alpha (child : B -> Z -> option search_result) (beta : Z) :
  (forall b a a', child b a = child b a') ->
  forall bb bm a a' x,
    match max_body child beta (bb, bm, a) x, max_body child beta (bb, bm, a') x with
    | None, None => True
    | Some (Break (b1, m1, _)), Some (Break (b2, m2, _))
    | Some (Continue (b1, m1, _)), Some (Continue (b2, m2, _)) => b1 = b2 /\ m1 = m2
    | _, _ => False
    end.
Proof.
  intros Hc bb bm a a' x. unfold max_body. rewrite (Hc (fst x) a' a).
  destruct (child (fst x) a) as [[o move]|]; [|exact I].
  destruct (move >? bm); (destruct (_ >=? beta); [split; reflexivity|]).
  - destruct (move >=? a), (move >=? a'); split; reflexivity.
  - destruct (bm >=? a), (bm >=? a'); split; reflexivity.
Qed.

Lemma min_body_alpha (child : B -> Z -> option search_result) (beta : Z) :
  (forall b a a', child b a = child b a') ->
  forall wb wm a a' x,
    match min_body child beta (wb, wm, a) x, min_body child beta (wb, wm, a') x with
    | None, None => True
    | Some (Break (b1, m1, _)), Some (Break (b2, m2, _))
    | Some (Continue (b1, m1, _)), Some (Continue (b2, m2, _)) => b1 = b2 /\ m1 = m2
    | _, _ => False
    end.
Proof.
  intros Hc wb wm a a' x. unfold min_body. rewrite (Hc (fst x) a' a).
  destruct (child (fst x) a) as [[o move]|]; [|exact I].
  destruct (move <? wm); (destruct (_ <=? beta); [split; reflexivity|]).
  - destruct (move <=? a), (move <=? a'); split; reflexivity.
  - destruct (wm <=? a), (wm <=? a'); split; reflexivity.
Qed.

Lemma max_loop_alpha (child : B -> Z -> option search_result) (beta : Z)
    (xs : list successor) :
  (forall b a a', child b a = child b a') ->
  forall bb bm a a',
    (for_break (max_body child beta) xs (bb, bm, a) = None
     /\ for_break (max_body child beta) xs (bb, bm, a') = None)
    \/ exists bb' bm' a1 a2 seen,
        for_break (max_body child beta) xs (bb, bm, a) = Some ((bb', bm', a1), seen)
        /\ for_break (max_body child beta) xs (bb, bm, a') = Some ((bb', bm', a2), seen).
Proof.
  intros Hc. induction xs as [|x xs IH]; intros bb bm a a'; cbn [for_break].
  - right. do 5 eexists. split; reflexivity.
  - pose proof (max_body_alpha child beta Hc bb bm a a' x) as Hb.
    destruct (max_body child beta (bb, bm, a) x) as [[[[b1 m1] x1]|[[b1 m1] x1]]|];
      destruct (max_body child beta (bb, bm, a') x) as [[[[b2 m2] x2]|[[b2 m2] x2]]|];
      try contradiction;
      try match type of Hb with _ /\ _ => destruct Hb as [<- <-] end.
    + destruct (IH b1 m1 x1 x2) as [[-> ->] | (bb' & bm' & a1 & a2 & seen & -> & ->)];
        [left; split; reflexivity | right; do 5 eexists; split; reflexivity].
    + right; do 5 eexists; split; reflexivity.
    + left; split; reflexivity.
Qed.

Lemma min_loop_alpha (child : B -> Z -> option search_result) (beta : Z)
    (xs : list successor) :
  (forall b a a', child b a = child b a') ->
  forall wb wm a a',
    (for_break (min_body child beta) xs (wb, wm, a) = None
     /\ for_break (min_body child beta) xs (wb, wm, a') = None)
    \/ exists wb' wm' a1 a2 seen,
        for_break (min_body child beta) xs (wb, wm, a) = Some ((wb', wm', a1), seen)
        /\ for_break (min_body child beta) xs (wb, wm, a') = Some ((wb', wm', a2), seen).
Proof.
  intros Hc. induction xs as [|x xs IH]; intros wb wm a a'; cbn [for_break].
  - right. do 5 eexists. split; reflexivity.
  - pose proof (min_body_alpha child beta Hc wb wm a a' x) as Hb.
    destruct (min_body child beta (wb, wm, a) x) as [[[[b1 m1] x1]|[[b1 m1] x1]]|];
      destruct (min_body child beta (wb, wm, a') x) as [[[[b2 m2] x2]|[[b2 m2] x2]]|];
      try contradiction;
      try match type of Hb with _ /\ _ => destruct Hb as [<- <-] end.
    + destruct (IH b1 m1 x1 x2) as [[-> ->] | (wb' & wm' & a1 & a2 & seen & -> & ->)];
        [left; split; reflexivity | right; do 5 eexists; split; reflexivity].
    + right; do 5 eexists; split; reflexivity.
    + left; split; reflexivity.
Qed.

Lemma search_fuel_alpha (fuel : nat) :
  (forall brd n alpha alpha' beta player,
      maxValue_fuel fuel brd n alpha beta player
      = maxValue_fuel fuel brd n alpha' beta player)
  /\ (forall brd n alpha alpha' beta player,
        minValue_fuel fuel brd n alpha beta player
        = minValue_fuel fuel brd n alpha' beta player).
Proof.
  induction fuel as [|fuel [IHmax IHmin]]; [split; reflexivity|].
  split; intros brd n alpha alpha' beta player.
  - rewrite !maxValue_fuel_S. destruct (is_minus_one _); [reflexivity|].
    unfold max_loop.
    destruct (max_loop_alpha (fun b a => minValue_fuel fuel b (n - 1) a beta player) beta
                (get_successors brd)
                (fun b a a' => IHmin b (n - 1) a a' beta player)
                None (-999999999) alpha alpha')
      as [[-> ->] | (bb' & bm' & a1 & a2 & seen & -> & ->)]; reflexivity.
  - rewrite !minValue_fuel_S. destruct (is_minus_one _); [reflexivity|].
    unfold min_loop.
    destruct (min_loop_alpha (fun b a => maxValue_fuel fuel b (n - 1) a beta player) beta
                (get_successors brd)
                (fun b a a' => IHmax b (n - 1) a a' beta player)
                None 999999999 alpha alpha')
      as [[-> ->] | (bb' & bm' & a1 & a2 & seen & -> & ->)]; reflexivity.
Qed.

(** X1: the argument [alpha] has no influence on the search.  Neither loop
    tests it, and [beta] is passed down unchanged, so [maxValue] and
    [minValue] return the same board and value, after examining the same
    successors, for every two values of [alpha]. *)
Theorem alpha_is_ignored (brd : B) (n alpha alpha' beta player : Z) :
  maxValue brd n alpha beta player = maxValue brd n alpha' beta player
  /\ minValue brd n alpha beta player = minValue brd n alpha' beta player
  /\ maxValue_examined brd n alpha beta player = maxValue_examined brd n alpha' beta player
  /\ minValue_examined brd n alpha beta player = minValue_examined brd n alpha' beta player.
Proof.
  repeat split.
  - apply search_fuel_alpha.
  - apply search_fuel_alpha.
  - unfold maxValue_examined. destruct (is_minus_one _); [reflexivity|]. unfold max_loop.
    destruct (max_loop_alpha (fun b a => minValue_fuel (Z.to_nat n) b (n - 1) a beta player)
                beta (get_successors brd)
                (fun b a a' => proj2 (search_fuel_alpha _) b (n - 1) a a' beta player)
                None (-999999999) alpha alpha')
      as [[-> ->] | (bb' & bm' & a1 & a2 & seen & -> & ->)]; reflexivity.
  - unfold minValue_examined. destruct (is_minus_one _); [reflexivity|]. unfold min_loop.
    destruct (min_loop_alpha (fun b a => maxValue_fuel (Z.to_nat n) b (n - 1) a beta player)
                beta (get_successors brd)
                (fun b a a' => proj1 (search_fuel_alpha _) b (n - 1) a a' beta player)
                None 999999999 alpha alpha')
      as [[-> ->] | (bb' & bm' & a1 & a2 & seen & -> & ->)]; reflexivity.
Qed.

(** X2: the search returns at every depth [n >= 0], and with the same result
    for every amount of fuel above [n]: the depth of the recursion is
    bounded by [n + 1] whatever the board. *)
Theorem search_returns (fuel : nat) (brd : B) (n alpha beta player : Z) :
  0 <= n -> (Z.to_nat n < fuel)%nat ->
  (exists r, maxValue brd n alpha beta player = Some r
             /\ maxValue_fuel fuel brd n alpha beta player = Some r)
  /\ (exists r, minValue brd n alpha beta player = Some r
                /\ minValue_fuel fuel brd n alpha beta player = Some r).
Proof.
  intros Hn Hf. split.
  - destruct (maxValue_total brd n alpha beta player Hn) as [r Hr]. exists r. split; [assumption|].
    eapply maxValue_fuel_mono; [|exact Hr]. lia.
  - destruct (minValue_total brd n alpha beta player Hn) as [r Hr]. exists r. split; [assumption|].
    eapply minValue_fuel_mono; [|exact Hr]. lia.
Qed.

(** X3: on a board without a free column, at a depth other than 0, the
    evaluator is not called: [maxValue] returns no board and the
    -999999999 it starts from, [minValue] no board and 999999999. *)
Theorem search_full_board (brd : B) (n alpha beta player : Z) :
  n <> 0 -> Board.free_cols brd = [] ->
  maxValue brd n alpha beta player = Some (None, -999999999)
  /\ minValue brd n alpha beta player = Some (None, 999999999).
Proof.
  intros Hn Hfree. apply get_successors_nil in Hfree.
  unfold maxValue, minValue.
  rewrite maxValue_fuel_S, minValue_fuel_S, terminal_ne by assumption.
  unfold max_loop, min_loop. rewrite Hfree. split; reflexivity.
Qed.

(** The loop of [maxValue] runs on all the items unless the value it ends
    with is at least [beta]; the value never goes down, and the board is
    the one it started with, at the same value, or a successor of a higher
    value. *)
Lemma max_loop_inv (child : B -> Z -> option search_result) (beta : Z)
    (xs : list successor) :
  forall bb bm a bb' bm' a' seen,
    for_break (max_body child beta) xs (bb, bm, a) = Some ((bb', bm', a'), seen) ->
    (seen = xs \/ beta <= bm')
    /\ ((bb' = bb /\ bm' = bm) \/ exists s, bb' = Some s /\ In s xs /\ bm < bm').
Proof.
  induction xs as [|x xs IH]; intros bb bm a bb' bm' a' seen; cbn [for_break].
  - intros [= <- <- _ <-]. auto.
  - unfold max_body at 1.
    destruct (child (fst x) a) as [[o move]|]; [|discriminate].
    destruct (Z.gtb_spec move bm) as [Hgt|Hle].
    + destruct (Z.geb_spec move beta).
      * intros [= <- <- _ <-]. split; [right; lia|]. right. exists x. simpl. auto with zarith.
      * destruct (move >=? a);
          (destruct (for_break _ xs _) as [[[[b2 m2] a2] seen']|] eqn:E; [|discriminate]);
          intros [= <- <- _ <-]; destruct (IH _ _ _ _ _ _ _ E) as [Hs Hb];
          (split; [destruct Hs as [-> | Hs]; auto|]);
          right; (destruct Hb as [[-> ->] | (s & -> & Hin & Hlt)];
                  [exists x | exists s]; simpl; repeat split; auto; lia).
    + destruct (Z.geb_spec bm beta).
      * intros [= <- <- _ <-]. split; [right; lia | left; auto].
      * destruct (bm >=? a);
          (destruct (for_break _ xs _) as [[[[b2 m2] a2] seen']|] eqn:E; [|discriminate]);
          intros [= <- <- _ <-]; destruct (IH _ _ _ _ _ _ _ E) as [Hs Hb];
          (split; [destruct Hs as [-> | Hs]; auto|]);
          (destruct Hb as [[-> ->] | (s & -> & Hin & Hlt)];
           [left; auto | right; exists s; simpl; auto]).
Qed.

Lemma min_loop_inv (child : B -> Z -> option search_result) (beta : Z)
    (xs : list successor) :
  forall wb wm a wb' wm' a' seen,
    for_break (min_body child beta) xs (wb, wm, a) = Some ((wb', wm', a'), seen) ->
    (seen = xs \/ wm' <= beta)
    /\ ((wb' = wb /\ wm' = wm) \/ exists s, wb' = Some s /\ In s xs /\ wm' < wm).
Proof.
  induction xs as [|x xs IH]; intros wb wm a wb' wm' a' seen; cbn [for_break].
  - intros [= <- <- _ <-]. auto.
  - unfold min_body at 1.
    destruct (child (fst x) a) as [[o move]|]; [|discriminate].
    destruct (Z.ltb_spec move wm) as [Hlt|Hge].
    + destruct (Z.leb_spec move beta).
      * intros [= <- <- _ <-]. split; [right; lia|]. right. exists x. simpl. auto with zarith.
      * destruct (move <=? a);
          (destruct (for_break _ xs _) as [[[[b2 m2] a2] seen']|] eqn:E; [|discriminate]);
          intros [= <- <- _ <-]; destruct (IH _ _ _ _ _ _ _ E) as [Hs Hb];
          (split; [destruct Hs as [-> | Hs]; auto|]);
          right; (destruct Hb as [[-> ->] | (s & -> & Hin & Hlt')];
                  [exists x | exists s]; simpl; repeat split; auto; lia).
    + destruct (Z.leb_spec wm beta).
      * intros [= <- <- _ <-]. split; [right; lia | left; auto].
      * destruct (wm <=? a);
          (destruct (for_break _ xs _) as [[[[b2 m2] a2] seen']|] eqn:E; [|discriminate]);
          intros [= <- <- _ <-]; destruct (IH _ _ _ _ _ _ _ E) as [Hs Hb];
          (split; [destruct Hs as [-> | Hs]; auto|]);
          (destruct Hb as [[-> ->] | (s & -> & Hin & Hlt')];
           [left; auto | right; exists s; simpl; auto]).
Qed.

(** X4: [maxValue] examines the successors in the order of
    [get_successors] and skips the rest of them only when the value it
    returns is at least [beta].  It returns no board with the value
    -999999999 it starts from, or a successor of the board, of a free
    column, with a higher value. *)
Theorem maxValue_cutoff (brd : B) (n alpha beta player : Z)
    (board : option successor) (value : Z) (seen : list successor) :
  1 <= n ->
  maxValue brd n alpha beta player = Some (board, value) ->
  maxValue_examined brd n alpha beta player = Some seen ->
  seen `prefix_of` get_successors brd
  /\ (seen = get_successors brd \/ beta <= value)
  /\ ((board = None /\ value = -999999999)
      \/ exists col, board = Some (Board.add_token brd col, col)
                     /\ In col (Board.free_cols brd) /\ -999999999 < value).
Proof.
  intros Hn. rewrite maxValue_step, maxValue_examined_step by assumption.
  unfold max_loop.
  destruct (for_break _ (get_successors brd) _) as [[[[bb bm] a] seen']|] eqn:E;
    [|discriminate].
  cbn. intros [= <- <-] [= <-].
  destruct (max_loop_inv _ _ _ _ _ _ _ _ _ _ E) as [Hs Hb].
  split; [eapply for_break_prefix, E|]. split; [assumption|].
  destruct Hb as [[-> ->] | (s & -> & Hin & Hlt)]; [left; auto | right].
  rewrite get_successors_map, in_map_iff in Hin. destruct Hin as (col & <- & Hin).
  exists col. auto.
Qed.

(** X5: [minValue] examines the successors in the order of
    [get_successors] and skips the rest of them only when the value it
    returns is at most [beta].  It returns no board with the value
    999999999 it starts from, or a successor of the board, of a free
    column, with a lower value. *)
Theorem minValue_cutoff (brd : B) (n alpha beta player : Z)
    (board : option successor) (value : Z) (seen : list successor) :
  1 <= n ->
  minValue brd n alpha beta player = Some (board, value) ->
  minValue_examined brd n alpha beta player = Some seen ->
  seen `prefix_of` get_successors brd
  /\ (seen = get_successors brd \/ value <= beta)
  /\ ((board = None /\ value = 999999999)
      \/ exists col, board = Some (Board.add_token brd col, col)
                     /\ In col (Board.free_cols brd) /\ value < 999999999).
Proof.
  intros Hn. rewrite minValue_step, minValue_examined_step by assumption.
  unfold min_loop.
  destruct (for_break _ (get_successors brd) _) as [[[[wb wm] a] seen']|] eqn:E;
    [|discriminate].
  cbn. intros [= <- <-] [= <-].
  destruct (min_loop_inv _ _ _ _ _ _ _ _ _ _ E) as [Hs Hb].
  split; [eapply for_break_prefix, E|]. split; [assumption|].
  destruct Hb as [[-> ->] | (s & -> & Hin & Hlt)]; [left; auto | right].
  rewrite get_successors_map, in_map_iff in Hin. destruct Hin as (col & <- & Hin).
  exists col. auto.
Qed.

End SearchMore.

(** ** More on the evaluator *)

Section EvaluatorMore.

Context {B : Type} `{!Board.Ops B}.

Lemma range_length (lo hi : Z) : length (range lo hi) = Z.to_nat (hi - lo).
Proof. unfold range. rewrite length_map, length_seq. reflexivity. Qed.

Lemma all_cells_length (brd : B) :
  length (all_cells brd) = (Z.to_nat (Board.w brd) * Z.to_nat (Board.h brd))%nat.
Proof.
  unfold all_cells.
  rewrite (flat_map_constant_length (c := Z.to_nat (Board.h brd))).
  - rewrite range_length, Z.sub_0_r. reflexivity.
  - intros x _. rewrite length_map, range_length, Z.sub_0_r. reflexivity.
Qed.

(** The scan counts every cell at most once, for +1 or for -5. *)
Lemma scan_bounds (brd : B) (me opponent : Z) :
  me <> 0 -> opponent <> 0 -> me <> opponent ->
  -5 * Z.of_nat (length (all_cells brd)) <= scan brd me opponent
  <= Z.of_nat (length (all_cells brd)).
Proof.
  intros Hme Hop Hne. rewrite scan_positional by assumption. unfold cells_on_line.
  pose proof (filter_length_le (on_line brd me) (all_cells brd)).
  pose proof (filter_length_le (on_line brd opponent) (all_cells brd)).
  lia.
Qed.

(** X6: [heuristics] returns one of the two sentinels or a positional score
    between -5 times and +1 times the number of cells [w * h] of the board,
    for every argument [player]. *)
Theorem heuristics_bounds (brd : B) (player : Z) :
  heuristics brd player = 99999999
  \/ heuristics brd player = -99999999
  \/ -5 * Z.of_nat (Z.to_nat (Board.w brd) * Z.to_nat (Board.h brd))
     <= heuristics brd player
     <= Z.of_nat (Z.to_nat (Board.w brd) * Z.to_nat (Board.h brd)).
Proof.
  rewrite <- all_cells_length. unfold heuristics.
  destruct (player =? 1); cbv iota beta;
    (destruct (_ && _); [left; reflexivity|]);
    (destruct (_ && _); [right; left; reflexivity|]);
    right; right; apply scan_bounds; lia.
Qed.

(** X7: on a board of fewer than 99999999 / 5 cells the sentinels cannot be
    mistaken for positional scores: [heuristics] returns 99999999 exactly
    when the outcome is [rootPlayer] and the other player is to move, and
    -99999999 exactly when the outcome is the other player and
    [rootPlayer] is to move. *)
Theorem heuristics_sentinel_iff (brd : B) (rootPlayer : Z) :
  rootPlayer = 1 \/ rootPlayer = 2 ->
  5 * Z.of_nat (Z.to_nat (Board.w brd) * Z.to_nat (Board.h brd)) < 99999999 ->
  (heuristics brd rootPlayer = 99999999
   <-> Board.get_outcome brd = rootPlayer /\ Board.player brd = swap rootPlayer)
  /\ (heuristics brd rootPlayer = -99999999
      <-> Board.get_outcome brd = swap rootPlayer /\ Board.player brd = rootPlayer).
Proof.
  intros Hp. rewrite <- all_cells_length. intros Hsmall.
  assert (Hscan : forall me opponent, me <> 0 -> opponent <> 0 -> me <> opponent ->
                    -99999999 < scan brd me opponent < 99999999).
  { intros me opponent H1 H2 H3. pose proof (scan_bounds brd me opponent H1 H2 H3). lia. }
  unfold heuristics.
  destruct Hp as [-> | ->].
  - change (swap 1) with 2. change (1 =? 1) with true. cbv iota beta.
    pose proof (Hscan 1 2 ltac:(lia) ltac:(lia) ltac:(lia)).
    destruct (Z.eqb_spec (Board.get_outcome brd) 1), (Z.eqb_spec (Board.player brd) 2);
      destruct (Z.eqb_spec (Board.get_outcome brd) 2), (Z.eqb_spec (Board.player brd) 1);
      cbn [andb]; split; split; intros; lia.
  - change (swap 2) with 1. change (2 =? 1) with false. cbv iota beta.
    pose proof (Hscan 2 1 ltac:(lia) ltac:(lia) ltac:(lia)).
    destruct (Z.eqb_spec (Board.get_outcome brd) 1), (Z.eqb_spec (Board.player brd) 2);
      destruct (Z.eqb_spec (Board.get_outcome brd) 2), (Z.eqb_spec (Board.player brd) 1);
      cbn [andb]; split; split; intros; lia.
Qed.

End EvaluatorMore.

(** ** More on the controller *)

Section ControllerMore.

Context {B : Type} `{!Board.Ops B}.

(** X8: [makeMove] returns for every depth limit, clock and board, and what
    it answers is a free column of the board or a [TypeError]: it never
    answers an illegal column. *)
Theorem makeMove_answers (max_depth : Z) (time : nat -> Q) (brd : B) :
  exists a, makeMove max_depth time brd = Some a
            /\ (a = TypeError \/ exists c, a = Column c /\ In c (Board.free_cols brd)).
Proof.
  destruct (makeMove_total max_depth time brd) as [a Ha]. exists a. split; [assumption|].
  destruct a as [c|]; [right | left; reflexivity].
  exists c. split; [reflexivity|]. eapply makeMove_legal, Ha.
Qed.

(** X9: on a board without a free column [makeMove] raises [TypeError],
    whatever the depth limit and the clock. *)
Theorem makeMove_full_board (max_depth : Z) (time : nat -> Q) (brd : B) :
  Board.free_cols brd = [] -> makeMove max_depth time brd = Some TypeError.
Proof.
  intros Hfree. destruct (makeMove_total max_depth time brd) as [a Ha]. rewrite Ha.
  destruct a as [c|]; [|reflexivity].
  apply makeMove_legal in Ha. rewrite Hfree in Ha. destruct Ha.
Qed.

(** X10: with a depth limit of 1 or less [makeMove] raises [TypeError] on
    every board: no search runs, or only the one of depth 0, which returns
    no board. *)
Theorem makeMove_shallow (max_depth : Z) (time : nat -> Q) (brd : B) :
  max_depth <= 1 -> makeMove max_depth time brd = Some TypeError.
Proof.
  intros Hd. unfold makeMove. destruct (Z.eq_dec max_depth 1) as [->|Hne].
  - rewrite makeMove_depth_one. reflexivity.
  - rewrite makeMove_no_depth by lia. reflexivity.
Qed.

Lemma makeMove_loop_last time clock (brd : B) depths k bestSeverity bestMove a cs :
  makeMove_loop time clock brd depths k bestSeverity bestMove = Some (a, cs) ->
  match last cs with
  | None => a = item1 bestMove
  | Some c =>
      exists board state,
        minValue brd (call_depth c) (-99999999) 99999999 (Board.player brd)
        = Some (board, state)
        /\ a = item1 (of_board board)
  end.
Proof.
  revert k bestSeverity bestMove a cs.
  induction depths as [|i depths IH]; intros k bs bm a cs; cbn [makeMove_loop].
  - intros [= <- <-]. reflexivity.
  - destruct (minValue brd i _ _ _) as [[board state]|] eqn:Hmin; [|discriminate].
    destruct (state >=? 9999999); [intros [= <- <-]; simpl; eauto|].
    destruct (state <=? -9999999); [intros [= <- <-]; simpl; eauto|].
    destruct (state >? bs);
      (destruct (over_budget _); [intros [= <- <-]; simpl; eauto|]);
      (destruct (makeMove_loop _ _ _ depths _ _ _) as [[a' cs']|] eqn:E; [|discriminate]);
      intros [= <- <-]; specialize (IH _ _ _ _ _ E); rewrite last_cons;
      (destruct (last cs') as [c'|]; [exact IH | simpl; eauto]).
Qed.

(** X11: the answer of [makeMove] is taken from the last search it ran: it is
    item 1 of the board that search returned, a [TypeError] when it returned
    no board.  The moves of shallower searches and [bestSeverity] have no
    part in it.  When no search ran the answer is a [TypeError]. *)
Theorem makeMove_last_search (max_depth : Z) (time : nat -> Q) (brd : B)
    (a : answer) (cs : list call) :
  makeMove_run max_depth time brd = Some (a, cs) ->
  match last cs with
  | None => a = TypeError
  | Some c =>
      exists board state,
        minValue brd (call_depth c) (-99999999) 99999999 (Board.player brd)
        = Some (board, state)
        /\ a = item1 (of_board board)
  end.
Proof.
  unfold makeMove_run. intros Hrun. apply makeMove_loop_last in Hrun.
  destruct (last cs); assumption.
Qed.

Lemma makeMove_loop_cons time clock (brd : B) (i : Z) (depths : list Z) (k : nat)
    (bestSeverity : Z) (bestMove : pyval) :
  makeMove_loop time clock brd (i :: depths) k bestSeverity bestMove
  = let c := Call MIN i (-99999999) 99999999 (Board.player brd) in
    match minValue brd i (-99999999) 99999999 (Board.player brd) with
    | None => None
    | Some (board, state) =>
        if state >=? 9999999 then Some (item1 (of_board board), [c])
        else if state <=? -9999999 then Some (item1 (of_board board), [c])
        else
          let '(bestSeverity, bestMove) :=
            if state >? bestSeverity then (state, of_board board)
            else (bestSeverity, of_board board) in
          if over_budget (time k - clock)%Q then Some (item1 bestMove, [c])
          else
            match makeMove_loop time clock brd depths (S k) bestSeverity bestMove with
            | Some (a, cs) => Some (a, c :: cs)
            | None => None
            end
    end.
Proof. reflexivity. Qed.

(** X12: the searches [makeMove] runs are calls of [minValue] at the depths
    0, 1, 2, ... in this order, without a gap, each with [alpha] =
    -99999999, [beta] = 99999999 and the player to move of the board; there
    are [max_depth] of them at most. *)
Theorem makeMove_searches (max_depth : Z) (time : nat -> Q) (brd : B) (cs : list call) :
  makeMove_calls max_depth time brd = Some cs ->
  cs = map (fun i => Call MIN i (-99999999) 99999999 (Board.player brd))
           (range 0 (Z.of_nat (length cs)))
  /\ Z.of_nat (length cs) <= Z.max 0 max_depth.
Proof.
  intros Hcs. apply makeMove_calls_prefix in Hcs. destruct Hcs as [k Hk].
  assert (Hlen : (length cs <= Z.to_nat max_depth)%nat).
  { apply (f_equal (@length call)) in Hk.
    rewrite length_map, range_length, length_app in Hk. lia. }
  split; [|lia].
  apply (f_equal (firstn (length cs))) in Hk.
  rewrite firstn_map, take_app_length in Hk.
  etransitivity; [symmetry; exact Hk|]. f_equal.
  unfold range. rewrite firstn_map, take_seq, !Z.sub_0_r, Nat2Z.id.
  f_equal. f_equal. lia.
Qed.

Lemma makeMove_loop_goes_on time clock (brd : B) depths k bestSeverity bestMove a cs :
  makeMove_loop time clock brd depths k bestSeverity bestMove = Some (a, cs) ->
  forall j, (S j < length cs)%nat ->
    exists d board state,
      depths !! j = Some d
      /\ minValue brd d (-99999999) 99999999 (Board.player brd) = Some (board, state)
      /\ -9999999 < state < 9999999
      /\ over_budget (time (k + j)%nat - clock)%Q = false.
Proof.
  revert k bestSeverity bestMove a cs.
  induction depths as [|i depths IH]; intros k bs bm a cs; rewrite ?makeMove_loop_cons.
  - intros [= _ <-] j Hj. simpl in Hj. lia.
  - cbv zeta.
    destruct (minValue brd i _ _ _) as [[board state]|] eqn:Hmin; [|discriminate].
    destruct (Z.geb_spec state 9999999); [intros [= _ <-] j Hj; simpl in Hj; lia|].
    destruct (Z.leb_spec state (-9999999)); [intros [= _ <-] j Hj; simpl in Hj; lia|].
    destruct (state >? bs); cbv beta iota zeta;
      (destruct (over_budget (time k - clock)%Q) eqn:Hover;
       [intros [= _ <-] j Hj; simpl in Hj; lia|]);
      (destruct (makeMove_loop _ _ _ depths _ _ _) as [[a' cs']|] eqn:E; [|discriminate]);
      intros [= _ <-] [|j] Hj; simpl in Hj;
      try (exists i, board, state; rewrite Nat.add_0_r;
           repeat split; try assumption; lia);
      (destruct (IH _ _ _ _ _ E j ltac:(lia)) as (d & b' & s' & Hd & Hm & Hb & Ho);
       exists d, b', s'; replace (k + S j)%nat with (S k + j)%nat by lia;
       repeat split; try assumption; lia).
Qed.

(** X13: [makeMove] goes on to a deeper search only after a search whose
    value is strictly between -9999999 and 9999999, and only when the clock
    read after it is no more than 12 seconds past the start: for every
    search but the last one run, both hold. *)
Theorem makeMove_goes_on (max_depth : Z) (time : nat -> Q) (brd : B)
    (a : answer) (cs : list call) (j : nat) :
  makeMove_run max_depth time brd = Some (a, cs) ->
  (S j < length cs)%nat ->
  exists board state,
    minValue brd (Z.of_nat j) (-99999999) 99999999 (Board.player brd) = Some (board, state)
    /\ -9999999 < state < 9999999
    /\ over_budget (time (S j) - time 0%nat)%Q = false.
Proof.
  unfold makeMove_run. intros Hrun Hj.
  destruct (makeMove_loop_goes_on _ _ _ _ _ _ _ _ _ Hrun j Hj)
    as (d & board & state & Hd & Hmin & Hb & Ho).
  exists board, state. split; [|split; assumption].
  unfold range in Hd. rewrite list_lookup_fmap in Hd.
  destruct (seq 0 (Z.to_nat (max_depth - 0)) !! j) as [x|] eqn:Hx; [|discriminate].
  apply lookup_seq in Hx as [-> _]. simpl in Hd. injection Hd as <-.
  replace (0 + Z.of_nat j) with (Z.of_nat j) in Hmin by lia. assumption.
Qed.

(** X14: the first search, of depth 0, cannot give a move: when its value is
    9999999 or more, or -9999999 or less, or when the clock is over
    12 seconds after it, [makeMove] raises [TypeError], whatever the depth
    limit. *)
Theorem makeMove_first_search_fatal (max_depth : Z) (time : nat -> Q) (brd : B) :
  heuristics brd (Board.player brd) >= 9999999
  \/ heuristics brd (Board.player brd) <= -9999999
  \/ over_budget (time 1%nat - time 0%nat)%Q = true ->
  makeMove max_depth time brd = Some TypeError.
Proof.
  intros Hfatal. destruct (Z.le_gt_cases max_depth 0) as [Hd|Hd].
  { unfold makeMove. rewrite makeMove_no_depth by assumption. reflexivity. }
  unfold makeMove, makeMove_run, range.
  replace (Z.to_nat (max_depth - 0)) with (S (Z.to_nat (max_depth - 1))) by lia.
  cbn [seq map]. change (0 + Z.of_nat 0) with 0.
  rewrite makeMove_loop_cons, minValue_0. cbv zeta. cbn [of_board item1].
  destruct (Z.geb_spec (heuristics brd (Board.player brd)) 9999999); [reflexivity|].
  destruct (Z.leb_spec (heuristics brd (Board.player brd)) (-9999999)); [reflexivity|].
  destruct Hfatal as [Hf | [Hf | Hf]]; try lia.
  destruct (_ >? 0); cbv beta iota zeta; rewrite Hf; reflexivity.
Qed.

(** The search of depth 1 and what follows it, when it is the last one to
    run. *)
Lemma makeMove_loop_depth_1 time clock (brd : B) (depths : list Z)
    (bestSeverity : Z) (bestMove : pyval) (s : successor) (state : Z) :
  minValue brd 1 (-99999999) 99999999 (Board.player brd) = Some (Some s, state) ->
  depths = [] \/ over_budget (time 2%nat - clock)%Q = true ->
  makeMove_loop time clock brd (1 :: depths) 2%nat bestSeverity bestMove
  = Some (Column (snd s), [Call MIN 1 (-99999999) 99999999 (Board.player brd)]).
Proof.
  intros Hmin Hlast. cbn [makeMove_loop]. rewrite Hmin. cbn [of_board item1].
  destruct (state >=? 9999999); [reflexivity|].
  destruct (state <=? -9999999); [reflexivity|].
  destruct (state >? bestSeverity); cbv beta iota zeta;
    (destruct Hlast as [-> | ->];
     [destruct (over_budget (time 2%nat - clock)%Q); reflexivity | reflexivity]).
Qed.

(** X15: with a depth limit of 2, or a larger one when the clock is over
    12 seconds after the second search, [makeMove] answers the first free
    column, provided the board itself is not scored beyond +-9999999, its
    first successor is scored 99999999 at most, and the clock is not over
    12 seconds after the first search. *)
Theorem makeMove_first_column (max_depth : Z) (time : nat -> Q) (brd : B)
    (col : Z) (rest : list Z) :
  max_depth = 2 \/ (2 <= max_depth /\ over_budget (time 2%nat - time 0%nat)%Q = true) ->
  Board.free_cols brd = col :: rest ->
  -9999999 < heuristics brd (Board.player brd) < 9999999 ->
  heuristics (Board.add_token brd col) (Board.player brd) <= 99999999 ->
  over_budget (time 1%nat - time 0%nat)%Q = false ->
  makeMove max_depth time brd = Some (Column col).
Proof.
  intros Hd Hfree Hroot Hsucc Hclock.
  assert (Hs : get_successors brd
               = (Board.add_token brd col, col)
                   :: map (fun c => (Board.add_token brd c, c)) rest).
  { rewrite get_successors_map, Hfree. reflexivity. }
  pose proof (minValue_depth_1 brd (-99999999) (Board.player brd) _ _ Hs Hsucc) as Hmin.
  assert (Hlast : map (fun k => 0 + Z.of_nat k) (seq 2 (Z.to_nat (max_depth - 2))) = []
                  \/ over_budget (time 2%nat - time 0%nat)%Q = true).
  { destruct Hd as [-> | [_ Hover]]; [left; reflexivity | right; assumption]. }
  unfold makeMove, makeMove_run, range.
  replace (Z.to_nat (max_depth - 0)) with (S (S (Z.to_nat (max_depth - 2)))) by lia.
  cbn [seq map]. change (0 + Z.of_nat 0) with 0. change (0 + Z.of_nat 1) with 1.
  rewrite makeMove_loop_cons, minValue_0. cbv zeta.
  destruct (Z.geb_spec (heuristics brd (Board.player brd)) 9999999); [lia|].
  destruct (Z.leb_spec (heuristics brd (Board.player brd)) (-9999999)); [lia|].
  destruct (_ >? 0); cbv beta iota zeta; rewrite Hclock;
    rewrite (makeMove_loop_depth_1 _ _ _ _ _ _ _ _ Hmin Hlast); reflexivity.
Qed.

End ControllerMore.

(** ** More on successors and the store *)

Section SuccessorsMore.

Context {B : Type} `{!Board.Ops B}.

Lemma get_successors_at_ok (σ : gmap ref B) (brd : ref) (v : B) :
  σ !! brd = Some v ->
  exists succ σ',
    get_successors_at σ brd = Some (succ, σ') /\ successors_ok σ σ' v succ.
Proof.
  intros Hv. unfold get_successors_at, free_cols_at. rewrite Hv.
  cbn [fmap option_fmap option_map mbind option_bind].
  destruct (Board.free_cols v) as [|col cols] eqn:Hfree.
  - exists [], σ. split; [reflexivity|]. split; auto; constructor.
  - destruct (successors_loop_ok brd v (col :: cols) [] σ Hv)
      as (new & σ' & Hrun & Hcols & Hnd & Hkept & Hcl).
    exists new, σ'. rewrite Hrun. split; [reflexivity|].
    split; auto. rewrite Hfree. assumption.
Qed.

(** X16: read in the store [get_successors] returns, its successors are the
    board values of the value-level [get_successors] the search runs on:
    the board with a token added in each free column, paired with that
    column, in the same order. *)
Theorem get_successors_at_refines (σ : gmap ref B) (brd : ref) (v : B) :
  σ !! brd = Some v ->
  exists succ σ',
    get_successors_at σ brd = Some (succ, σ')
    /\ map (fun s => (σ' !! fst s, snd s)) succ
       = map (fun s => (Some (fst s), snd s)) (get_successors v).
Proof.
  intros Hv. destruct (get_successors_at_ok σ brd v Hv) as (succ & σ' & Hrun & Hok).
  exists succ, σ'. split; [assumption|]. apply (get_successors_at_values σ), Hok.
Qed.

(** X17: two calls of [get_successors] on the same board, one after the
    other, return the same columns and two disjoint families of board
    objects; the second call leaves the successors of the first as they
    were. *)
Theorem get_successors_at_twice (σ : gmap ref B) (brd : ref) (v : B) :
  σ !! brd = Some v ->
  exists succ1 σ1 succ2 σ2,
    get_successors_at σ brd = Some (succ1, σ1)
    /\ get_successors_at σ1 brd = Some (succ2, σ2)
    /\ map snd succ1 = map snd succ2
    /\ (forall l, In l (map fst succ1) -> ~ In l (map fst succ2))
    /\ Forall (fun s => σ2 !! fst s = Some (Board.add_token v (snd s))) (succ1 ++ succ2).
Proof.
  intros Hv.
  destruct (get_successors_at_ok σ brd v Hv) as (succ1 & σ1 & Hrun1 & [Hc1 Hd1 Hk1 Hcl1]).
  assert (Hv1 : σ1 !! brd = Some v).
  { rewrite Hk1; [assumption|]. apply elem_of_dom. eauto. }
  destruct (get_successors_at_ok σ1 brd v Hv1) as (succ2 & σ2 & Hrun2 & [Hc2 Hd2 Hk2 Hcl2]).
  exists succ1, σ1, succ2, σ2. repeat split; try assumption.
  - congruence.
  - intros l Hin1 Hin2.
    apply in_map_iff in Hin1 as ([l1 c1] & <- & Hin1).
    apply in_map_iff in Hin2 as ([l2 c2] & Heq & Hin2). simpl in Heq. subst l2.
    rewrite Forall_forall in Hcl1, Hcl2.
    destruct (Hcl1 (l1, c1)) as [_ Hl1]; [apply list_elem_of_In; assumption|].
    destruct (Hcl2 (l1, c2)) as [Hfresh _]; [apply list_elem_of_In; assumption|].
    apply Hfresh. apply elem_of_dom. simpl in *. eauto.
  - apply Forall_app. split.
    + eapply Forall_impl; [exact Hcl1|]. intros [l c] [_ Hl]. simpl in *.
      rewrite Hk2; [assumption|]. apply elem_of_dom. eauto.
    + eapply Forall_impl; [exact Hcl2|]. intros s [_ Hl]. assumption.
Qed.

End SuccessorsMore.

(** ** The additional properties on the grid board *)

(** Depth 1 on [win_left], with five units of fuel. *)
Lemma search_returns_witness :
  (exists r, maxValue win_left 1 (-99999999) 99999999 1 = Some r
             /\ maxValue_fuel 5 win_left 1 (-99999999) 99999999 1 = Some r)
  /\ (exists r, minValue win_left 1 (-99999999) 99999999 1 = Some r
                /\ minValue_fuel 5 win_left 1 (-99999999) 99999999 1 = Some r).
Proof.
  apply (search_returns 5 win_left 1 (-99999999) 99999999 1); [lia | vm_compute; lia].
Defined.

(** The board of two cells, both taken. *)
Lemma search_full_board_witness :
  maxValue (add_token (add_token two_left 0) 1) 3 (-99999999) 99999999 1
  = Some (None, -999999999)
  /\ minValue (add_token (add_token two_left 0) 1) 3 (-99999999) 99999999 1
     = Some (None, 999999999).
Proof.
  apply (search_full_board (add_token (add_token two_left 0) 1) 3 (-99999999) 99999999 1);
    [lia | vm_compute; reflexivity].
Defined.

(** On [win_middle] at depth 1 [maxValue] stops at column 1, the winning
    one, and leaves column 2 out. *)
Lemma maxValue_cutoff_witness :
  [(add_token win_middle 0, 0); (add_token win_middle 1, 1)]
    `prefix_of` get_successors win_middle
  /\ ([(add_token win_middle 0, 0); (add_token win_middle 1, 1)] = get_successors win_middle
      \/ 99999999 <= 99999999)
  /\ ((Some (add_token win_middle 1, 1) = None /\ 99999999 = -999999999)
      \/ exists col, Some (add_token win_middle 1, 1) = Some (Board.add_token win_middle col, col)
                     /\ In col (Board.free_cols win_middle) /\ -999999999 < 99999999).
Proof.
  apply (maxValue_cutoff win_middle 1 (-99999999) 99999999 1
           (Some (add_token win_middle 1, 1)) 99999999
           [(add_token win_middle 0, 0); (add_token win_middle 1, 1)]);
    [lia | vm_compute; reflexivity | vm_compute; reflexivity].
Defined.

(** On [win_middle] at depth 1 [minValue] stops at column 0. *)
Lemma minValue_cutoff_witness :
  [(add_token win_middle 0, 0)] `prefix_of` get_successors win_middle
  /\ ([(add_token win_middle 0, 0)] = get_successors win_middle \/ -2 <= 99999999)
  /\ ((Some (add_token win_middle 0, 0) = None /\ -2 = 999999999)
      \/ exists col, Some (add_token win_middle 0, 0) = Some (Board.add_token win_middle col, col)
                     /\ In col (Board.free_cols win_middle) /\ -2 < 999999999).
Proof.
  apply (minValue_cutoff win_middle 1 (-99999999) 99999999 1
           (Some (add_token win_middle 0, 0)) (-2) [(add_token win_middle 0, 0)]);
    [lia | vm_compute; reflexivity | vm_compute; reflexivity].
Defined.

(** A board of nine cells, won by player 1. *)
Lemma heuristics_sentinel_iff_witness :
  (heuristics (add_token win_left 0) 1 = 99999999
   <-> Board.get_outcome (add_token win_left 0) = 1
       /\ Board.player (add_token win_left 0) = swap 1)
  /\ (heuristics (add_token win_left 0) 1 = -99999999
      <-> Board.get_outcome (add_token win_left 0) = swap 1
          /\ Board.player (add_token win_left 0) = 1).
Proof.
  apply (heuristics_sentinel_iff (add_token win_left 0) 1);
    [left; reflexivity | vm_compute; reflexivity].
Defined.

Lemma makeMove_full_board_witness :
  makeMove 7 frozen (add_token (add_token two_left 0) 1) = Some TypeError.
Proof.
  apply (makeMove_full_board 7 frozen (add_token (add_token two_left 0) 1)).
  vm_compute. reflexivity.
Defined.

Lemma makeMove_shallow_witness : makeMove 1 slow empty = Some TypeError.
Proof. apply (makeMove_shallow 1 slow empty). lia. Defined.

(** The two searches of [makeMove] with depth limit 2 on [win_middle]: the
    answer is the column of the board the search of depth 1 returns. *)
Lemma makeMove_last_search_witness :
  exists board state,
    minValue win_middle 1 (-99999999) 99999999 (Board.player win_middle)
    = Some (board, state)
    /\ Column 0 = item1 (of_board board).
Proof.
  apply (makeMove_last_search 2 frozen win_middle (Column 0)
           [Call MIN 0 (-99999999) 99999999 1; Call MIN 1 (-99999999) 99999999 1]).
  vm_compute. reflexivity.
Defined.

(** [win_middle]: column 0 is answered, where column 1 wins. *)
Lemma makeMove_first_column_witness : makeMove 2 frozen win_middle = Some (Column 0).
Proof.
  apply (makeMove_first_column 2 frozen win_middle 0 [1; 2]);
    [left; reflexivity | vm_compute; reflexivity | vm_compute; split; reflexivity
    | vm_compute; discriminate | vm_compute; reflexivity].
Defined.

(** The two searches of depth limit 2 on [win_middle]. *)
Lemma makeMove_searches_witness :
  [Call MIN 0 (-99999999) 99999999 1; Call MIN 1 (-99999999) 99999999 1]
  = map (fun i => Call MIN i (-99999999) 99999999 (Board.player win_middle))
        (range 0 (Z.of_nat 2))
  /\ Z.of_nat 2 <= Z.max 0 2.
Proof.
  apply (makeMove_searches 2 frozen win_middle
           [Call MIN 0 (-99999999) 99999999 1; Call MIN 1 (-99999999) 99999999 1]).
  vm_compute. reflexivity.
Defined.

Lemma get_successors_at_refines_witness :
  exists succ σ',
    get_successors_at one_board 1%positive = Some (succ, σ')
    /\ map (fun s => (σ' !! fst s, snd s)) succ
       = map (fun s => (Some (fst s), snd s)) (get_successors empty).
Proof.
  apply (get_successors_at_refines one_board 1%positive empty). reflexivity.
Defined.

Lemma get_successors_at_twice_witness :
  exists succ1 σ1 succ2 σ2,
    get_successors_at one_board 1%positive = Some (succ1, σ1)
    /\ get_successors_at σ1 1%positive = Some (succ2, σ2)
    /\ map snd succ1 = map snd succ2
    /\ (forall l, In l (map fst succ1) -> ~ In l (map fst succ2))
    /\ Forall (fun s => σ2 !! fst s = Some (Board.add_token empty (snd s))) (succ1 ++ succ2).
Proof.
  apply (get_successors_at_twice one_board 1%positive empty). reflexivity.
Defined.

(** With depth limit 2 on [win_middle] the search of depth 0 is followed by
    another one. *)
Lemma makeMove_goes_on_witness :
  exists board state,
    minValue win_middle (Z.of_nat 0) (-99999999) 99999999 (Board.player win_middle)
    = Some (board, state)
    /\ -9999999 < state < 9999999
    /\ over_budget (frozen 1%nat - frozen 0%nat)%Q = false.
Proof.
  apply (makeMove_goes_on 2 frozen win_middle (Column 0)
           [Call MIN 0 (-99999999) 99999999 1; Call MIN 1 (-99999999) 99999999 1] 0);
    [vm_compute; reflexivity | simpl; lia].
Defined.

(** The clock that reads 13 seconds after the first search. *)
Lemma makeMove_first_search_fatal_witness : makeMove 7 slow win_middle = Some TypeError.
Proof.
  apply (makeMove_first_search_fatal 7 slow win_middle).
  right; right. vm_compute. reflexivity.
Defined.
